(** * Custom scripts of swift-docc-render: [src/utils/custom-scripts.js]

    A shallow embedding of the module that reads [custom-scripts.json] and
    runs the scripts it lists, either by adding a script element to the
    document (on page load) or by a dynamic import (on navigation), and the
    properties of it that the specification states. *)

From Stdlib Require Import PrimFloat.
From stdpp Require Import gmap strings list.


(** ** JavaScript values

    The values [JSON.parse] produces, and [undefined], which reading an
    absent property gives.  Numbers are IEEE doubles, as in the engine. *)

#[warnings="-register-all"]
Inductive JSValue : Type :=
| JUndefined
| JNull
| JBool (b : bool)
| JNum (x : float)
| JStr (s : string)
| JArr (items : list JSValue)
| JObj (props : gmap string JSValue).

(** What a [throw] carries.  [Error message] is [new Error(message)]; the
    other two are raised by the engine or the host, with a message that
    depends on the engine. *)
Inductive Exception : Type :=
| Error (message : string)
| TypeError
| SyntaxError.

(** The completion of an evaluation: a value, or a thrown exception.  For
    an awaited promise, [Normal] is fulfilment and [Throw] is rejection. *)
Inductive Completion (A : Type) : Type :=
| Normal (a : A)
| Throw (e : Exception).
Arguments Normal {A} a.
Arguments Throw {A} e.

#[global] Instance Completion_ret : MRet Completion := @Normal.
#[global] Instance Completion_bind : MBind Completion := λ A B f c,
  match c with
  | Normal a => f a
  | Throw e => Throw e
  end.
#[global] Instance Completion_throw : MThrow Exception Completion := @Throw.

(** The ECMAScript conversion to a boolean (truthiness). *)
Definition ToBoolean (v : JSValue) : bool :=
  match v with
  | JUndefined | JNull => false
  | JBool b => b
  | JNum x => negb (PrimFloat.eqb x 0 || PrimFloat.is_nan x)
  | JStr s => negb (String.eqb s "")
  | JArr _ | JObj _ => true
  end.

(** [a || b]. *)
Definition JSor (a b : JSValue) : JSValue := if ToBoolean a then a else b.

(** [v === s] for a string literal [s]. *)
Definition strictEqualsString (v : JSValue) (s : string) : bool :=
  match v with
  | JStr t => String.eqb t s
  | _ => false
  end.

(** [o.p], read after [has(o, p)] answered: an own property of a JSON
    object, and [undefined] where there is none. *)
Definition getProp (o : JSValue) (p : string) : JSValue :=
  match o with
  | JObj props => default JUndefined (props !! p)
  | _ => JUndefined
  end.

(** [s.slice(start)] on a string: from [start], counted from the end when
    negative, to the end of the string.  A string is its sequence of bytes;
    whether one ends in ".js" is the same by bytes and by code units. *)
Definition slice (s : string) (start : Z) : string :=
  let len := Z.of_nat (String.length s) in
  let from := if (start <? 0)%Z then Z.max (len + start) 0 else Z.min start len in
  String.string_of_list_ascii
    (drop (Z.to_nat from) (String.list_ascii_of_string s)).

(** ** The document and the module loader

    A script element is the finite map of the properties this module
    assigns to it; a property that is not in the map is left at what the
    platform gives a newly created element ([async] is then true,
    [crossOrigin] is null). *)
Abbreviation Element := (gmap string JSValue).

Definition createElement (tagName : string) : Element := ∅.

(** The effects a dispatch has on its host, in the order they happen:
    children appended to [document.head], and dynamic imports started. *)
Inductive Effect : Type :=
| AppendChild (element : Element)
| Import (specifier : JSValue).

Abbreviation World := (list Effect).

(** Code that may throw and that acts on the host. *)
Definition M (A : Type) : Type := World → Completion A * World.

#[global] Instance M_ret : MRet M := λ A a w, (Normal a, w).
#[global] Instance M_bind : MBind M := λ A B f c w,
  match c w with
  | (Normal a, w') => f a w'
  | (Throw e, w') => (Throw e, w')
  end.
#[global] Instance M_throw : MThrow Exception M := λ A e w, (Throw e, w).

(** A computation without effects, run inside [M]. *)
Definition pure {A} (c : Completion A) : M A := λ w, (c, w).

(** [document.head.appendChild(element)]. *)
Definition appendChild (element : Element) : M unit :=
  λ w, (Normal tt, w ++ [AppendChild element]).

(** The promise an [async] function returns to its caller: rejected, when
    the body threw before its first [await]; otherwise the body stopped at
    [await import(specifier)], its last statement, and the promise settles
    when, and as, that import does. *)
Inductive Promise : Type :=
| Rejected (reason : Exception)
| AwaitingImport (specifier : JSValue).

(** [await import(specifier)] as the last statement of an [async] body:
    the import is started and the body is suspended on it. *)
Definition awaitImport (specifier : JSValue) : M JSValue :=
  λ w, (Normal specifier, w ++ [Import specifier]).

(** Calling an [async] function never throws: the call runs the body up to
    its first [await] and returns the promise. *)
Definition async (body : M JSValue) : M Promise :=
  λ w, match body w with
       | (Normal specifier, w') => (Normal (AwaitingImport specifier), w')
       | (Throw e, w') => (Normal (Rejected e), w')
       end.

(** ** Arrays *)
Module Array.

Definition isArray (v : JSValue) : bool :=
  match v with
  | JArr _ => true
  | _ => false
  end.

(** [items.filter(predicate)]: the predicate is called on every item, in
    order, before anything is done with the result. *)
Fixpoint filter (predicate : JSValue → Completion bool) (items : list JSValue)
    : Completion (list JSValue) :=
  match items with
  | [] => mret []
  | item :: rest =>
      predicate item ≫= λ keep : bool,
      filter predicate rest ≫= λ kept,
      mret (if keep then item :: kept else kept)
  end.

(** [items.forEach(callback)]: the callback is called on every item, in
    order; what a call returns is dropped, what it throws ends the loop. *)
Fixpoint forEach {R} (callback : JSValue → M R) (items : list JSValue) : M unit :=
  match items with
  | [] => mret tt
  | item :: rest => callback item;; forEach callback rest
  end.

End Array.

(** ** [docc-render/utils/object-properties] *)

(** Modelled from the spec: [has] of utils/object-properties, which is not
    under src/.  The spec speaks of a property of an entry being present or
    absent; this is JavaScript's own-property test ([Object.hasOwn]), which
    raises a [TypeError] on [null] and [undefined].  Of the JSON values only
    objects own a property of one of the names this module asks for. *)
Definition has (object : JSValue) (property : string) : Completion bool :=
  match object with
  | JUndefined | JNull => mthrow TypeError
  | JObj props => mret (bool_decide (is_Some (props !! property)))
  | _ => mret false
  end.

(** Modelled from the spec: [mustNotHave] of utils/object-properties, which
    is not under src/: a validation error with the given message when the
    property is present. *)
Definition mustNotHave (object : JSValue) (property errorMessage : string)
    : Completion unit :=
  has object property ≫= λ present : bool,
  if present then mthrow (Error errorMessage) else mret tt.

(** Modelled from the spec: [copyPropertyIfPresent] of
    utils/object-properties, which is not under src/: the property, if
    present in the source, is copied through to the destination. *)
Definition copyPropertyIfPresent (property : string) (source : JSValue)
    (destination : Element) : Completion Element :=
  has source property ≫= λ present : bool,
  mret (if present then <[property := getProp source property]> destination
        else destination).

(** Modelled from the spec: [copyPresentProperties] of
    utils/object-properties, which is not under src/: each of the listed
    properties, in order, is copied through if present. *)
Fixpoint copyPresentProperties (properties : list string) (source : JSValue)
    (destination : Element) : Completion Element :=
  match properties with
  | [] => mret destination
  | property :: rest =>
      copyPropertyIfPresent property source destination ≫= λ destination,
      copyPresentProperties rest source destination
  end.

(** ** [docc-render/utils/url-helper] *)

(** The argument of [resolveAbsoluteUrl]: a path, or the parts of one. *)
Inductive Path : Type :=
| PathString (path : string)
| PathParts (parts : list string).

(** Modelled from the spec: [resolveAbsoluteUrl] of utils/url-helper, which
    is not under src/: the concatenation of the configured base path and
    the path, whose parts are joined by a slash. *)
Definition resolveAbsoluteUrl (baseUrl : string) (path : Path) : string :=
  baseUrl +:+ match path with
              | PathString path => path
              | PathParts parts => String.concat "/" parts
              end.

(** ** [docc-render/utils/custom-scripts] *)

(** Enum for the allowed values of the [run] property in a custom script. *)
Module Run.
Definition onLoad : string := "on-load".
Definition onLoadAndNavigate : string := "on-load-and-navigate".
Definition onNavigate : string := "on-navigate".
End Run.

(** Returns whether the custom script should be run on page load. *)
Definition shouldRunOnPageLoad (customScript : JSValue) : Completion bool :=
  has customScript "run" ≫= λ hasRun : bool,
  mret (negb hasRun
        || strictEqualsString (getProp customScript "run") Run.onLoad
        || strictEqualsString (getProp customScript "run") Run.onLoadAndNavigate).

(** Returns whether the custom script should be run when the reader
    navigates to a topic. *)
Definition shouldRunOnNavigate (customScript : JSValue) : Completion bool :=
  has customScript "run" ≫= λ hasRun : bool,
  mret (hasRun
        && (strictEqualsString (getProp customScript "run") Run.onNavigate
            || strictEqualsString (getProp customScript "run") Run.onLoadAndNavigate)).

(** What [fetch] resolves to: the [ok] flag of the response, and what its
    [json()] settles to. *)
Record Response : Type := { ok : bool; json : Completion JSValue }.

Section Host.

(** The configured base path of the site. *)
Variable baseUrl : string.
(** The engine's conversion of an array to a string, which a template
    literal applies. *)
Variable ArrayToString : list JSValue → string.
(** What the host's [fetch] of a URL settles to. *)
Variable fetch : string → Completion Response.

(** Gets the URL for a local custom script given its name.  A string name
    gets the ".js" extension unless its last three characters are ".js";
    an array has a [slice] too, whose result is never [=== '.js']; no other
    JSON value has a [slice] method. *)
Definition urlGivenScriptName (customScriptName : JSValue) : Completion string :=
  match customScriptName with
  | JStr name =>
      let scriptNameWithExtension :=
        if negb (String.eqb (slice name (-3)) ".js") then name +:+ ".js" else name in
      mret (resolveAbsoluteUrl baseUrl
              (PathParts [""; "custom-scripts"; scriptNameWithExtension]))
  | JArr items =>
      let scriptNameWithExtension := ArrayToString items +:+ ".js" in
      mret (resolveAbsoluteUrl baseUrl
              (PathParts [""; "custom-scripts"; scriptNameWithExtension]))
  | _ => mthrow TypeError
  end.

(** Add an HTMLScriptElement containing the custom script to the document's
    head, which runs the script on page load. *)
Definition addScriptElement (customScript : JSValue) : M unit :=
  let scriptElement := createElement "script" in
  pure (copyPropertyIfPresent "type" customScript scriptElement) ≫= λ scriptElement,
  pure (has customScript "url") ≫= λ hasUrl : bool,
  (if hasUrl then
     pure (mustNotHave customScript "name"
             "Custom script cannot have both `url` and `name`.");;
     let scriptElement := <["src" := getProp customScript "url"]> scriptElement in
     let scriptElement :=
       <["async" := JSor (getProp customScript "async") (JBool false)]> scriptElement in
     pure (copyPresentProperties ["defer"; "integrity"] customScript scriptElement)
       ≫= λ scriptElement,
     pure (has customScript "integrity") ≫= λ hasIntegrity : bool,
     mret (if hasIntegrity
           then <["crossOrigin" := JStr "anonymous"]> scriptElement
           else scriptElement)
   else
     pure (has customScript "name") ≫= λ hasName : bool,
     if hasName then
       pure (urlGivenScriptName (getProp customScript "name")) ≫= λ src,
       let scriptElement := <["src" := JStr src]> scriptElement in
       let scriptElement :=
         <["async" := JSor (getProp customScript "async") (JBool false)]> scriptElement in
       pure (copyPresentProperties ["defer"; "integrity"] customScript scriptElement)
     else
       mthrow (Error "Custom script has neither a `url` nor a `name` property."))
  ≫= λ scriptElement : Element,
  appendChild scriptElement.

(** Run the custom script using a dynamic import.  An [async] function: the
    caller gets a promise. *)
Definition importScript (customScript : JSValue) : M Promise :=
  async (
    pure (has customScript "url") ≫= λ hasUrl : bool,
    if hasUrl then
      pure (mustNotHave customScript "name"
              "Custom script cannot have both `url` and `name`.");;
      awaitImport (getProp customScript "url")
    else
      pure (has customScript "name") ≫= λ hasName : bool,
      if hasName then
        pure (urlGivenScriptName (getProp customScript "name")) ≫= λ url,
        awaitImport (JStr url)
      else
        mthrow (Error "Custom script has neither a `url` nor a `name` property.")).

(** Run all custom scripts that pass the [predicate] using the [executor].
    An [async] function whose promise every caller awaits: the outcome is
    what that promise settles to, and [Throw] is its rejection. *)
Definition runCustomScripts {R} (predicate : JSValue → Completion bool)
    (executor : JSValue → M R) : M unit :=
  let customScriptsFileName := "custom-scripts.json" in
  let url := resolveAbsoluteUrl baseUrl (PathString ("/" +:+ customScriptsFileName)) in
  pure (fetch url) ≫= λ response : Response,
  if negb (ok response) then
    (* If the file is absent, fail silently. *)
    mret tt
  else
    pure (json response) ≫= λ customScripts : JSValue,
    match customScripts with
    | JArr items =>
        pure (Array.filter predicate items) ≫= λ selected,
        Array.forEach executor selected
    | _ =>
        mthrow (Error ("Content of " +:+ customScriptsFileName +:+ " should be an array."))
    end.

(** Runs all "on-load" and "on-load-and-navigate" scripts. *)
Definition runCustomPageLoadScripts : M unit :=
  runCustomScripts shouldRunOnPageLoad addScriptElement.

(** Runs all "on-navigate" and "on-load-and-navigate" scripts. *)
Definition runCustomNavigateScripts : M unit :=
  runCustomScripts shouldRunOnNavigate importScript.

End Host.

(** ** The manifest, as the host serves it *)

(** Where [runCustomScripts] fetches the manifest. *)
Definition manifestUrl (baseUrl : string) : string :=
  resolveAbsoluteUrl baseUrl (PathString "/custom-scripts.json").

(** The manifest exists and its body parses as the JSON value [body]. *)
Definition served (baseUrl : string) (fetch : string → Completion Response)
    (body : JSValue) : Prop :=
  fetch (manifestUrl baseUrl) = Normal {| ok := true; json := Normal body |}.

(** The two validation errors about the source of a script. *)
Definition bothSources : Exception :=
  Error "Custom script cannot have both `url` and `name`.".
Definition noSource : Exception :=
  Error "Custom script has neither a `url` nor a `name` property.".

Definition ScriptSourceError (e : Exception) : Prop :=
  e = bothSources ∨ e = noSource.

(** The error for a manifest that is not an array. *)
Definition ManifestFormatError : Exception :=
  Error "Content of custom-scripts.json should be an array.".

(** ** The timeline of a dispatch

    From the moment the manifest is parsed, a dispatch operation runs
    without an [await] until its promise settles: one job of the event
    loop, which nothing interrupts.  The host finishes loading and running
    an imported module, and settles the promise of its import, in a later
    job. *)
Inductive Moment : Type :=
| Performs (effect : Effect)
| Settles (outcome : Completion unit)
| ImportDone (specifier : JSValue).

Definition importsStarted (w : World) : list JSValue :=
  omap (λ effect, match effect with
                  | Import specifier => Some specifier
                  | AppendChild _ => None
                  end) w.

(** The operation's own job: its effects, then the settling of its promise. *)
Definition ownJob (operation : M unit) : list Moment :=
  (Performs <$> (operation []).2) ++ [Settles (operation []).1].

(** The timelines of an operation: its own job, then the imports it left
    pending, finished by the host one at a time in any order.  The second
    index lists the imports still pending. *)
Inductive timeline (operation : M unit) : list Moment → list JSValue → Prop :=
| timeline_job :
    timeline operation (ownJob operation) (importsStarted (operation []).2)
| timeline_import_done moments before specifier after :
    timeline operation moments (before ++ specifier :: after) →
    timeline operation (moments ++ [ImportDone specifier]) (before ++ after).

(** A timeline on which every import is awaited before anything else goes
    on: no import starts, and the operation does not settle, while an
    import is pending. *)
Fixpoint awaitedInTurn (pending : bool) (moments : list Moment) : bool :=
  match moments with
  | [] => true
  | Performs (Import _) :: rest => negb pending && awaitedInTurn true rest
  | Performs (AppendChild _) :: rest => awaitedInTurn pending rest
  | ImportDone _ :: rest => pending && awaitedInTurn false rest
  | Settles _ :: rest => negb pending && awaitedInTurn false rest
  end.

(** The import that the promise of an [importScript] call awaits, if any. *)
Definition importAwaited (returned : Completion Promise) : option JSValue :=
  match returned with
  | Normal (AwaitingImport specifier) => Some specifier
  | _ => None
  end.

(** The imports that calling [importScript] on each entry starts. *)
Definition importsOf (baseUrl : string) (ArrayToString : list JSValue → string)
    (entries : list JSValue) : list JSValue :=
  omap (λ customScript,
          importAwaited (importScript baseUrl ArrayToString customScript []).1)
       entries.

(** ** Asynchronous functions, task by task

    An [async] function as the tasks it is run in.  Its body runs until it
    returns, throws, or reaches an [await]; there the function waits, and
    what is left of the body is run in a later task, when the awaited
    promise has settled.  A caller that does not await the promise it is
    given goes on as soon as the callee waits. *)
Module Tasks.

(** What is left to run of the body of an [async] function. *)
Inductive Prog : Type :=
| Return
| Raise (e : Exception)
| AwaitImport (specifier : JSValue) (resume : Completion unit → Prog)
| Detach (callee : Prog) (next : Prog).

(** The end of a body whose last statement was an [await]: the function
    returns, or throws what the awaited promise was rejected with. *)
Definition settle (outcome : Completion unit) : Prog :=
  match outcome with
  | Normal _ => Return
  | Throw e => Raise e
  end.

(** An expression that may throw, and the rest of the body. *)
Definition evaluate {A} (c : Completion A) (next : A → Prog) : Prog :=
  match c with
  | Normal a => next a
  | Throw e => Raise e
  end.

(** [items.forEach(callback)] for a callback that is an [async] function:
    each call returns a promise when the callee first waits, and
    [forEach] drops it and goes on to the next item. *)
Fixpoint forEach (callback : JSValue → Prog) (items : list JSValue) : Prog :=
  match items with
  | [] => Return
  | item :: rest => Detach (callback item) (forEach callback rest)
  end.

(** [await callee; next]: the caller waits where the callee does, and
    goes on with the outcome when the callee has ended. *)
Fixpoint andThen (callee : Prog) (next : Completion unit → Prog) : Prog :=
  match callee with
  | Return => next (Normal tt)
  | Raise e => next (Throw e)
  | AwaitImport specifier resume =>
      AwaitImport specifier (λ outcome, andThen (resume outcome) next)
  | Detach callee' rest => Detach callee' (andThen rest next)
  end.

(** The dispatch in the words of the specification, to compare [forEach]
    with: each entry is executed and awaited, in order, before the next
    one begins; an entry that fails ends the dispatch. *)
Fixpoint awaitEach (callback : JSValue → Prog) (items : list JSValue) : Prog :=
  match items with
  | [] => Return
  | item :: rest =>
      andThen (callback item) (λ outcome,
        match outcome with
        | Normal _ => awaitEach callback rest
        | Throw e => Raise e
        end)
  end.

Section Host.

Variable baseUrl : string.
Variable ArrayToString : list JSValue → string.
Variable fetch : string → Completion Response.

(** [importScript], whose last statement in either branch is
    [await import(...)]. *)
Definition importScript (customScript : JSValue) : Prog :=
  evaluate (has customScript "url") (λ hasUrl : bool,
    if hasUrl then
      evaluate (mustNotHave customScript "name"
                  "Custom script cannot have both `url` and `name`.") (λ _,
        AwaitImport (getProp customScript "url") settle)
    else
      evaluate (has customScript "name") (λ hasName : bool,
        if hasName then
          evaluate (urlGivenScriptName baseUrl ArrayToString
                      (getProp customScript "name")) (λ url,
            AwaitImport (JStr url) settle)
        else
          Raise (Error "Custom script has neither a `url` nor a `name` property."))).

(** [runCustomScripts] with an executor that is an [async] function.  Its
    two awaits are on the host's answers, when nothing of this module is
    under way; they are taken as settled. *)
Definition runCustomScripts (predicate : JSValue → Completion bool)
    (executor : JSValue → Prog) : Prog :=
  let customScriptsFileName := "custom-scripts.json" in
  let url := resolveAbsoluteUrl baseUrl (PathString ("/" +:+ customScriptsFileName)) in
  evaluate (fetch url) (λ response : Response,
    if negb (ok response) then Return
    else
      evaluate (json response) (λ customScripts : JSValue,
        match customScripts with
        | JArr items =>
            evaluate (Array.filter predicate items) (λ selected,
              forEach executor selected)
        | _ =>
            Raise (Error ("Content of " +:+ customScriptsFileName
                          +:+ " should be an array."))
        end)).

Definition runCustomNavigateScripts : Prog :=
  runCustomScripts shouldRunOnNavigate importScript.

End Host.

(** A function that waits for an import: the specifier, whether the
    function is the operation whose timeline is followed, and what is left
    of its body. *)
Record Waiting : Type := {
  awaited : JSValue;
  isOperation : bool;
  resume : Completion unit → Prog;
}.

(** The moments so far, and the functions that wait. *)
Record Config : Type := {
  moments : list Moment;
  waiting : list Waiting;
}.

Definition record (moment : Moment) (c : Config) : Config :=
  {| moments := moments c ++ [moment]; waiting := waiting c |}.

(** A task: the body is run up to its end or its next [await].  When the
    operation itself ends, its promise settles; a function whose promise
    was dropped ends unseen. *)
Fixpoint run (operation : bool) (body : Prog) (c : Config) : Config :=
  match body with
  | Return => if operation then record (Settles (Normal tt)) c else c
  | Raise e => if operation then record (Settles (Throw e)) c else c
  | AwaitImport specifier resume =>
      {| moments := moments c ++ [Performs (Import specifier)];
         waiting := waiting c ++ [{| awaited := specifier;
                                     isOperation := operation;
                                     resume := resume |}] |}
  | Detach callee next => run operation next (run false callee c)
  end.

(** The first task of an operation. *)
Definition begin (operation : Prog) : Config :=
  run true operation {| moments := []; waiting := [] |}.

(** The configurations an operation reaches: after its first task, the
    host settles the import that one of the waiting functions awaits, as
    it chooses and with the outcome it chooses, and the function is run
    on. *)
Inductive reaches (operation : Prog) : Config → Prop :=
| reaches_begin : reaches operation (begin operation)
| reaches_import_done c before task after outcome :
    reaches operation c →
    waiting c = before ++ task :: after →
    reaches operation
      (run (isOperation task) (resume task outcome)
           {| moments := moments c ++ [ImportDone (awaited task)];
              waiting := before ++ after |}).

End Tasks.

(** The source of an entry, in the words of the specification: the
    external [url] verbatim, or the URL derived from the [name]; none for
    an entry with both, with neither, or with a name that does not
    resolve. *)
Definition sourceOf (baseUrl : string) (ArrayToString : list JSValue → string)
    (customScript : JSValue) : option JSValue :=
  match customScript with
  | JObj props =>
      match props !! "url", props !! "name" with
      | Some url, None => Some url
      | None, Some name =>
          match urlGivenScriptName baseUrl ArrayToString name with
          | Normal resolved => Some (JStr resolved)
          | Throw _ => None
          end
      | _, _ => None
      end
  | _ => None
  end.

(** A call of [importScript] whose promise was dropped, waiting for the
    import of its source. *)
Definition importing (source : JSValue) : Tasks.Waiting :=
  {| Tasks.awaited := source; Tasks.isOperation := false;
     Tasks.resume := Tasks.settle |}.

#[global] Instance Exception_eq_dec : EqDecision Exception.
Proof. solve_decision. Defined.
#[global] Instance Completion_eq_dec `{EqDecision A} : EqDecision (Completion A).
Proof. solve_decision. Defined.

(** ** Sample manifests *)
Module Sample.

Definition object (properties : list (string * JSValue)) : JSValue :=
  JObj (list_to_map properties).

(** A host that serves the manifest with the given body, at any URL. *)
Definition serving (body : JSValue) : string → Completion Response :=
  λ _, Normal {| ok := true; json := Normal body |}.

(** A host on which the manifest does not exist. *)
Definition notFound : string → Completion Response :=
  λ _, Normal {| ok := false; json := Throw SyntaxError |}.

(** No sample names a script by an array: the conversion is not called. *)
Definition arrayToString : list JSValue → string := λ _, "".

Definition digest : JSValue :=
  JStr "sha384-oqVuAfXRKap7fdgcCY5uykM6+R9GqQ8K/uxy9rx7HNQlGYl1kPzQho1wx4JwY8wC".

Definition localProps : gmap string JSValue :=
  {[ "name" := JStr "foo"; "integrity" := digest ]}.
Definition localElement : Element :=
  {[ "src" := JStr "/docs/custom-scripts/foo.js"; "async" := JBool false;
     "integrity" := digest ]}.

Definition externalProps : gmap string JSValue :=
  {[ "url" := JStr "https://example.com/lib.js"; "integrity" := digest;
     "async" := JBool true ]}.
Definition externalElement : Element :=
  {[ "src" := JStr "https://example.com/lib.js"; "async" := JBool true;
     "integrity" := digest; "crossOrigin" := JStr "anonymous" ]}.

Definition a : JSValue := object [("name", JStr "a"); ("run", JStr "on-load")].
Definition b : JSValue := object [("name", JStr "b"); ("run", JStr "on-navigate")].
Definition c : JSValue := object [("name", JStr "c")].
Definition d : JSValue :=
  object [("url", JStr "https://example.com/d.js"); ("run", JStr "on-navigate")].

Definition aElement : Element :=
  {[ "src" := JStr "/docs/custom-scripts/a.js"; "async" := JBool false ]}.
Definition cElement : Element :=
  {[ "src" := JStr "/docs/custom-scripts/c.js"; "async" := JBool false ]}.

(** An entry without a source, for page load and navigation. *)
Definition sourceless : JSValue := object [("run", JStr "on-load-and-navigate")].

(** An entry with both sources. *)
Definition doubled : JSValue :=
  object [("url", JStr "https://example.com/e.js"); ("name", JStr "e")].

(** An entry whose [run] is not one of the allowed values. *)
Definition oddProps : gmap string JSValue :=
  {[ "name" := JStr "x"; "run" := JStr "always" ]}.

End Sample.

(** ** The root component, [App.vue]

    The data of the component that the methods below read and write, and
    the parts of its host that they act on: the event listeners the
    component has on [window], and the style of the document's body, as
    the properties set on it, each with the value it was set to. *)

(** The methods the component registers as listeners on [window]. *)
Inductive Callback : Type :=
| OnKeyDown
| OnMouseDown.

#[global] Instance Callback_eq_dec : EqDecision Callback.
Proof. solve_decision. Defined.

Record App : Type := {
  initialRoutingEventHasOccurred : bool;
  fromKeyboard : bool;
  listeners : list (string * Callback);
  rootStyle : gmap string JSValue;
}.

(** [window.addEventListener(type, listener)]: a listener that is already
    registered for the type is not registered again. *)
Definition addEventListener (type : string) (listener : Callback)
    (registered : list (string * Callback)) : list (string * Callback) :=
  if decide ((type, listener) ∈ registered) then registered
  else registered ++ [(type, listener)].

(** [window.removeEventListener(type, listener)]. *)
Definition removeEventListener (type : string) (listener : Callback)
    (registered : list (string * Callback)) : list (string * Callback) :=
  filter (λ entry, entry ≠ (type, listener)) registered.

(** [onKeyDown()]. *)
Definition onKeyDown (this : App) : App :=
  {| initialRoutingEventHasOccurred := initialRoutingEventHasOccurred this;
     fromKeyboard := true;
     listeners :=
       removeEventListener "keydown" OnKeyDown
         (addEventListener "mousedown" OnMouseDown (listeners this));
     rootStyle := rootStyle this |}.

(** [onMouseDown()]. *)
Definition onMouseDown (this : App) : App :=
  {| initialRoutingEventHasOccurred := initialRoutingEventHasOccurred this;
     fromKeyboard := false;
     listeners :=
       removeEventListener "mousedown" OnMouseDown
         (addEventListener "keydown" OnKeyDown (listeners this));
     rootStyle := rootStyle this |}.

Definition call (listener : Callback) : App → App :=
  match listener with
  | OnKeyDown => onKeyDown
  | OnMouseDown => onMouseDown
  end.

(** An event of the given type on [window]: the listeners registered when
    the event arrives are gone through in order, and each one is called if
    it is for this type and is still registered when its turn comes. *)
Definition dispatchEvent (type : string) (this : App) : App :=
  foldl (λ this entry,
           if decide (entry.1 = type ∧ entry ∈ listeners this)
           then call entry.2 this else this)
        this (listeners this).

(** [Object.entries(object)]: the properties with their values.  The
    properties of an object are distinct, so that the order in which they
    are gone through does not show in what the methods below do. *)
Definition entries (object : gmap string JSValue) : list (string * JSValue) :=
  map_to_list object.

(** [attachStylesToRoot(CSSCustomProperties)]: sets on the root each
    property whose value is truthy. *)
Definition attachStylesToRoot (CSSCustomProperties : gmap string JSValue)
    (root : gmap string JSValue) : gmap string JSValue :=
  foldl (λ style entry, <[entry.1 := entry.2]> style) root
        (filter (λ entry, ToBoolean entry.2 = true) (entries CSSCustomProperties)).

(** [detachStylesFromRoot(CSSCustomProperties)]: removes from the root each
    of the properties. *)
Definition detachStylesFromRoot (CSSCustomProperties : gmap string JSValue)
    (root : gmap string JSValue) : gmap string JSValue :=
  foldl (λ style entry, delete entry.1 style) root (entries CSSCustomProperties).

(** The handler of the watcher of [CSSCustomProperties], called with the
    new value. *)
Definition watchCSSCustomProperties (CSSCustomProperties : gmap string JSValue)
    (this : App) : App :=
  {| initialRoutingEventHasOccurred := initialRoutingEventHasOccurred this;
     fromKeyboard := fromKeyboard this;
     listeners := listeners this;
     rootStyle :=
       attachStylesToRoot CSSCustomProperties
         (detachStylesFromRoot CSSCustomProperties (rootStyle this)) |}.

(** [beforeDestroy()], with the value [CSSCustomProperties] has then.  The
    call on [this.$bridge] acts on the bridge, which is no part of [App]. *)
Definition beforeDestroy (CSSCustomProperties : gmap string JSValue)
    (this : App) : App :=
  {| initialRoutingEventHasOccurred := initialRoutingEventHasOccurred this;
     fromKeyboard := fromKeyboard this;
     listeners :=
       if fromKeyboard this
       then removeEventListener "mousedown" OnMouseDown (listeners this)
       else removeEventListener "keydown" OnKeyDown (listeners this);
     rootStyle := detachStylesFromRoot CSSCustomProperties (rootStyle this) |}.

(** The handler of the watcher of [$route], an [async] method that the
    router's events call: what its promise settles to, the component and
    the host after it.  A rejected dispatch is rethrown by the [await], so
    that the assignment after it is not reached. *)
Definition watchRoute (baseUrl : string) (ArrayToString : list JSValue → string)
    (fetch : string → Completion Response) (this : App) (w : World)
    : Completion unit * App * World :=
  if initialRoutingEventHasOccurred this then
    let '(outcome, w') := runCustomNavigateScripts baseUrl ArrayToString fetch w in
    (outcome, this, w')
  else
    match runCustomPageLoadScripts baseUrl ArrayToString fetch w with
    | (Normal _, w') =>
        (Normal tt,
         {| initialRoutingEventHasOccurred := true;
            fromKeyboard := fromKeyboard this;
            listeners := listeners this;
            rootStyle := rootStyle this |},
         w')
    | (Throw e, w') => (Throw e, this, w')
    end.

(** Routing events handled one after the other, each when the handler of
    the one before has settled, on a host that answers every fetch of the
    manifest alike; a rejection of the handler ends none of them. *)
Fixpoint routingEvents (baseUrl : string) (ArrayToString : list JSValue → string)
    (fetch : string → Completion Response) (count : nat) (this : App) (w : World)
    : App * World :=
  match count with
  | O => (this, w)
  | S count =>
      let '(_, this', w') := watchRoute baseUrl ArrayToString fetch this w in
      routingEvents baseUrl ArrayToString fetch count this' w'
  end.

(** The events that reach the keyboard and mouse listeners. *)
Fixpoint dispatchEvents (types : list string) (this : App) : App :=
  match types with
  | [] => this
  | type :: rest => dispatchEvents rest (dispatchEvent type this)
  end.

(** The keyboard and mouse listeners that the component has at any time
    after [created]: the one for [mousedown] when the last of these events
    was a key press, the one for [keydown] otherwise. *)
Definition keyboardListeners (this : App) : Prop :=
  listeners this =
    if fromKeyboard this then [("mousedown", OnMouseDown)]
    else [("keydown", OnKeyDown)].

(** Whether the last key press or mouse press of the events, if there is
    one, was a key press. *)
Definition lastWasKey (types : list string) (before : bool) : bool :=
  foldl (λ was type,
           if decide (type = "keydown") then true
           else if decide (type = "mousedown") then false
           else was)
        before types.

Module AppSample.

(** The component when [created] has registered its [keydown] listener. *)
Definition created : App :=
  {| initialRoutingEventHasOccurred := false;
     fromKeyboard := false;
     listeners := [("keydown", OnKeyDown)];
     rootStyle := {[ "--color-fill" := JStr "#fff" ]} |}.

Definition theme : gmap string JSValue :=
  {[ "--color-fill" := JStr "#000"; "--color-text" := JNull ]}.

(** A host whose manifest is not JSON. *)
Definition unparsable : string → Completion Response :=
  λ _, Normal {| ok := true; json := Throw SyntaxError |}.

(** An entry named by a number. *)
Definition numbered : gmap string JSValue := {[ "name" := JNum 5 ]}.

End AppSample.

(** * Properties *)

(** ** Properties of the classification predicates *)

Lemma strictEqualsString_true v s :
  strictEqualsString v s = true ↔ v = JStr s.
Proof.
  destruct v; simpl; try (split; [discriminate | congruence]).
  rewrite String.eqb_eq. split; congruence.
Qed.

Lemma has_object props p :
  has (JObj props) p = Normal (bool_decide (is_Some (props !! p))).
Proof. reflexivity. Qed.

Lemma has_present props p v :
  props !! p = Some v → has (JObj props) p = Normal true.
Proof. intros H. rewrite has_object, bool_decide_eq_true_2; eauto. Qed.

Lemma has_absent props p :
  props !! p = None → has (JObj props) p = Normal false.
Proof.
  intros H. rewrite has_object, bool_decide_eq_false_2; [done|].
  rewrite H. by intros [? ?].
Qed.

Lemma getProp_present props p v :
  props !! p = Some v → getProp (JObj props) p = v.
Proof. intros H. simpl. by rewrite H. Qed.

Lemma shouldRunOnPageLoad_object props :
  shouldRunOnPageLoad (JObj props) =
    Normal (match props !! "run" with
            | None => true
            | Some v => strictEqualsString v "on-load"
                        || strictEqualsString v "on-load-and-navigate"
            end).
Proof.
  unfold shouldRunOnPageLoad. destruct (props !! "run") as [v|] eqn:Hrun.
  - by rewrite (has_present _ _ _ Hrun), (getProp_present _ _ _ Hrun).
  - by rewrite (has_absent _ _ Hrun).
Qed.

Lemma shouldRunOnNavigate_object props :
  shouldRunOnNavigate (JObj props) =
    Normal (match props !! "run" with
            | None => false
            | Some v => strictEqualsString v "on-navigate"
                        || strictEqualsString v "on-load-and-navigate"
            end).
Proof.
  unfold shouldRunOnNavigate. destruct (props !! "run") as [v|] eqn:Hrun.
  - by rewrite (has_present _ _ _ Hrun), (getProp_present _ _ _ Hrun).
  - by rewrite (has_absent _ _ Hrun).
Qed.

(** C5: for every entry, [shouldRunOnPageLoad] answers, and answers true
    exactly when [run] is absent or is "on-load" or "on-load-and-navigate";
    [shouldRunOnNavigate] answers, and answers true exactly when [run] is
    present and is "on-navigate" or "on-load-and-navigate".  Both are
    functions of the entry alone: they neither read nor change the host. *)
Theorem shouldRun_exactly (props : gmap string JSValue) :
  ∃ onLoad onNavigate : bool,
    shouldRunOnPageLoad (JObj props) = Normal onLoad ∧
    shouldRunOnNavigate (JObj props) = Normal onNavigate ∧
    (onLoad = true ↔
       props !! "run" = None ∨
       props !! "run" = Some (JStr "on-load") ∨
       props !! "run" = Some (JStr "on-load-and-navigate")) ∧
    (onNavigate = true ↔
       props !! "run" = Some (JStr "on-navigate") ∨
       props !! "run" = Some (JStr "on-load-and-navigate")).
Proof.
  do 2 eexists.
  split; [apply shouldRunOnPageLoad_object|].
  split; [apply shouldRunOnNavigate_object|].
  destruct (props !! "run") as [v|]; split.
  - rewrite orb_true_iff, !strictEqualsString_true.
    split; [intros [->| ->]; auto | intros [?|[?|?]]; [done | left | right]; congruence].
  - rewrite orb_true_iff, !strictEqualsString_true.
    split; (intros [?|?]; [left | right]; congruence).
  - split; auto.
  - split; [done | intros [?|?]; done].
Qed.

(** ** Properties of the dispatch *)

Lemma filter_app predicate (before after : list JSValue) :
  Array.filter predicate (before ++ after) =
    Array.filter predicate before ≫= λ kept,
    Array.filter predicate after ≫= λ kept', mret (kept ++ kept').
Proof.
  induction before as [|item before IH]; simpl.
  - by destruct (Array.filter predicate after).
  - destruct (predicate item) as [keep|e]; simpl; [|done].
    rewrite IH. destruct (Array.filter predicate before); simpl; [|done].
    destruct (Array.filter predicate after); simpl; [|done].
    by destruct keep.
Qed.

Lemma filter_skip predicate (before after : list JSValue) item :
  predicate item = Normal false →
  Array.filter predicate (before ++ item :: after) =
    Array.filter predicate (before ++ after).
Proof.
  intros Hskip. rewrite !filter_app. simpl. rewrite Hskip. simpl.
  destruct (Array.filter predicate before); simpl; [|done].
  by destruct (Array.filter predicate after).
Qed.

Section Dispatch.

Context (baseUrl : string) (ArrayToString : list JSValue → string).
Context {R : Type} (predicate : JSValue → Completion bool) (executor : JSValue → M R).

Lemma runCustomScripts_absent fetch response w :
  fetch (manifestUrl baseUrl) = Normal response →
  ok response = false →
  runCustomScripts baseUrl fetch predicate executor w = (Normal tt, w).
Proof.
  intros Hfetch Hok. unfold runCustomScripts.
  change (resolveAbsoluteUrl baseUrl _) with (manifestUrl baseUrl).
  unfold mbind, M_bind, pure. by rewrite Hfetch, Hok.
Qed.

Lemma runCustomScripts_served fetch body w :
  served baseUrl fetch body →
  runCustomScripts baseUrl fetch predicate executor w =
    match body with
    | JArr items =>
        match Array.filter predicate items with
        | Normal selected => Array.forEach executor selected w
        | Throw e => (Throw e, w)
        end
    | _ => (Throw ManifestFormatError, w)
    end.
Proof.
  intros Hfetch. unfold served in Hfetch. unfold runCustomScripts.
  change (resolveAbsoluteUrl baseUrl _) with (manifestUrl baseUrl).
  unfold mbind, M_bind, pure. rewrite Hfetch. simpl.
  by destruct body.
Qed.

End Dispatch.

Section DispatchProperties.

Context (baseUrl : string) (ArrayToString : list JSValue → string).

(** C7: if the fetch of the manifest path answers that the resource does
    not exist (a response that is not ok), both dispatch operations return
    normally, with nothing appended to the document and no import
    started. *)
Theorem absent_manifest_is_silent fetch response w :
  fetch (manifestUrl baseUrl) = Normal response →
  ok response = false →
  runCustomPageLoadScripts baseUrl ArrayToString fetch w = (Normal tt, w) ∧
  runCustomNavigateScripts baseUrl ArrayToString fetch w = (Normal tt, w).
Proof.
  intros Hfetch Hok. split; by eapply runCustomScripts_absent.
Qed.

(** C8: if the manifest exists and its parsed body is not an array, both
    dispatch operations are rejected with the manifest format error, and
    nothing has been appended or imported. *)
Theorem non_array_manifest_is_rejected fetch body w :
  served baseUrl fetch body →
  Array.isArray body = false →
  runCustomPageLoadScripts baseUrl ArrayToString fetch w
    = (Throw ManifestFormatError, w) ∧
  runCustomNavigateScripts baseUrl ArrayToString fetch w
    = (Throw ManifestFormatError, w).
Proof.
  intros Hserved Hbody. unfold runCustomPageLoadScripts, runCustomNavigateScripts.
  rewrite !(runCustomScripts_served _ _ _ _ _ _ Hserved).
  by destruct body.
Qed.

(** C10: an entry whose [run] is present and is none of the three
    recognized values fails both predicates, and both dispatch operations
    pass over it: they do exactly what they do on the manifest without the
    entry, and raise nothing on its account. *)
Theorem unrecognized_run_is_skipped fetch fetch' props v before after w :
  props !! "run" = Some v →
  v ≠ JStr "on-load" →
  v ≠ JStr "on-load-and-navigate" →
  v ≠ JStr "on-navigate" →
  served baseUrl fetch (JArr (before ++ JObj props :: after)) →
  served baseUrl fetch' (JArr (before ++ after)) →
  shouldRunOnPageLoad (JObj props) = Normal false ∧
  shouldRunOnNavigate (JObj props) = Normal false ∧
  runCustomPageLoadScripts baseUrl ArrayToString fetch w
    = runCustomPageLoadScripts baseUrl ArrayToString fetch' w ∧
  runCustomNavigateScripts baseUrl ArrayToString fetch w
    = runCustomNavigateScripts baseUrl ArrayToString fetch' w.
Proof.
  intros Hrun Hload Hboth Hnav Hserved Hserved'.
  assert (∀ s, v ≠ JStr s → strictEqualsString v s = false) as Hne.
  { intros s Hs. destruct (strictEqualsString v s) eqn:E; [|done].
    by apply strictEqualsString_true in E. }
  assert (shouldRunOnPageLoad (JObj props) = Normal false) as HonLoad.
  { by rewrite shouldRunOnPageLoad_object, Hrun, !Hne. }
  assert (shouldRunOnNavigate (JObj props) = Normal false) as HonNavigate.
  { by rewrite shouldRunOnNavigate_object, Hrun, !Hne. }
  split; [done|]. split; [done|].
  unfold runCustomPageLoadScripts, runCustomNavigateScripts.
  rewrite !(runCustomScripts_served _ _ _ _ _ _ Hserved).
  rewrite !(runCustomScripts_served _ _ _ _ _ _ Hserved').
  by rewrite !filter_skip.
Qed.

End DispatchProperties.

(** ** Properties of the local script URL *)

Lemma list_ascii_of_string_app (s t : string) :
  String.list_ascii_of_string (s +:+ t)
    = String.list_ascii_of_string s ++ String.list_ascii_of_string t.
Proof. induction s as [|c s IH]; simpl; [done|]. by rewrite IH. Qed.

Lemma string_of_list_ascii_app (l k : list Ascii.ascii) :
  String.string_of_list_ascii (l ++ k)
    = String.string_of_list_ascii l +:+ String.string_of_list_ascii k.
Proof. induction l as [|c l IH]; simpl; [done|]. by rewrite IH. Qed.

Lemma length_list_ascii_of_string (s : string) :
  length (String.list_ascii_of_string s) = String.length s.
Proof. induction s as [|c s IH]; simpl; [done|]. by rewrite IH. Qed.

(** The last three characters of a name are ".js" exactly when the name
    ends in ".js". *)
Lemma slice_extension (name : string) :
  slice name (-3) = ".js" ↔ ∃ stem, name = stem +:+ ".js".
Proof.
  unfold slice. change (-3 <? 0)%Z with true. cbv iota.
  split.
  - intros Hlast.
    set (from := Z.to_nat (Z.max (Z.of_nat (String.length name) + -3) 0)) in *.
    exists (String.string_of_list_ascii (take from (String.list_ascii_of_string name))).
    rewrite <- Hlast, <- string_of_list_ascii_app, take_drop.
    by rewrite String.string_of_list_ascii_of_string.
  - intros [stem ->].
    rewrite list_ascii_of_string_app.
    replace (Z.to_nat _) with (length (String.list_ascii_of_string stem)).
    + by rewrite drop_app_length.
    + rewrite length_list_ascii_of_string.
      assert (String.length (stem +:+ ".js") = String.length stem + 3) as ->.
      { rewrite <- !length_list_ascii_of_string, list_ascii_of_string_app.
        by rewrite length_app. }
      lia.
Qed.

Section LocalScripts.

Context (baseUrl : string) (ArrayToString : list JSValue → string).

(** C6: the URL of a local script is the base path, the "custom-scripts"
    segment and the name, joined; the name is taken as it is when it ends
    in ".js" and gets ".js" appended when it does not.  So "foo" and
    "foo.js" both resolve to the URL that ends in "/custom-scripts/foo.js". *)
Theorem urlGivenScriptName_extension (name : string) :
  ((∃ stem, name = stem +:+ ".js") →
     urlGivenScriptName baseUrl ArrayToString (JStr name)
       = Normal (baseUrl +:+ "/custom-scripts/" +:+ name)) ∧
  ((¬ ∃ stem, name = stem +:+ ".js") →
     urlGivenScriptName baseUrl ArrayToString (JStr name)
       = Normal (baseUrl +:+ "/custom-scripts/" +:+ name +:+ ".js")) ∧
  urlGivenScriptName baseUrl ArrayToString (JStr "foo")
    = Normal (baseUrl +:+ "/custom-scripts/foo.js") ∧
  urlGivenScriptName baseUrl ArrayToString (JStr "foo.js")
    = Normal (baseUrl +:+ "/custom-scripts/foo.js").
Proof.
  assert (∀ n, resolveAbsoluteUrl baseUrl (PathParts [""; "custom-scripts"; n])
               = baseUrl +:+ "/custom-scripts/" +:+ n) as Hresolve.
  { intros n. unfold resolveAbsoluteUrl. simpl. reflexivity. }
  unfold urlGivenScriptName. rewrite !Hresolve.
  split; [|split; [|split; reflexivity]].
  - intros Hext. apply slice_extension in Hext.
    by rewrite Hext.
  - intros Hnone. destruct (String.eqb_spec (slice name (-3)) ".js") as [Hext|_]; [|done].
    by apply slice_extension in Hext.
Qed.

End LocalScripts.

(** ** Properties of the two executors *)

Section Executors.

Context (baseUrl : string) (ArrayToString : list JSValue → string).

(** Resolving a name raises nothing but the engine's [TypeError]. *)
Lemma urlGivenScriptName_throws name e :
  urlGivenScriptName baseUrl ArrayToString name = Throw e → e = TypeError.
Proof.
  destruct name; simpl; unfold mthrow, Completion_throw, mret, Completion_ret;
    congruence.
Qed.

Local Ltac by_cases_on props :=
  destruct (props !! "type") eqn:?, (props !! "url") eqn:?,
    (props !! "name") as [name|] eqn:?, (props !! "defer") eqn:?,
    (props !! "integrity") eqn:?;
  simpl;
  try (destruct (urlGivenScriptName baseUrl ArrayToString name)
         as [resolved|raised] eqn:Hresolved;
       [|apply urlGivenScriptName_throws in Hresolved as ->]);
  simpl.

(** What [addScriptElement] has done when it returns: one element was
    appended, which carries the properties below. *)
Lemma addScriptElement_returns props w w' :
  addScriptElement baseUrl ArrayToString (JObj props) w = (Normal tt, w') →
  ∃ element,
    w' = w ++ [AppendChild element] ∧
    element !! "async" = Some (JSor (getProp (JObj props) "async") (JBool false)) ∧
    element !! "type" = props !! "type" ∧
    element !! "defer" = props !! "defer" ∧
    element !! "integrity" = props !! "integrity" ∧
    element !! "crossOrigin" =
      match props !! "url", props !! "integrity" with
      | Some _, Some _ => Some (JStr "anonymous")
      | _, _ => None
      end.
Proof.
  unfold addScriptElement, appendChild, pure, mbind, M_bind, mret, M_ret,
    mthrow, M_throw, mustNotHave, createElement.
  simpl. by_cases_on props; intros [= <-]; eexists; (split; [reflexivity|]);
    by simplify_map_eq.
Qed.

Local Ltac run_executors :=
  unfold addScriptElement, importScript, async, awaitImport, appendChild, pure,
    mbind, M_bind, mret, M_ret, mthrow, M_throw, mustNotHave, createElement,
    bothSources, noSource;
  simpl.

Lemma addScriptElement_neither props w :
  props !! "url" = None → props !! "name" = None →
  addScriptElement baseUrl ArrayToString (JObj props) w = (Throw noSource, w).
Proof.
  intros Hurl Hname. run_executors. rewrite Hurl, Hname.
  by destruct (props !! "type").
Qed.

(** An entry with a [url] and no [name] is always added. *)
Lemma addScriptElement_url props url w :
  props !! "url" = Some url → props !! "name" = None →
  ∃ element,
    addScriptElement baseUrl ArrayToString (JObj props) w
      = (Normal tt, w ++ [AppendChild element]) ∧
    element !! "src" = Some url.
Proof.
  intros Hurl Hname. run_executors. rewrite Hurl, Hname.
  destruct (props !! "type"), (props !! "defer"), (props !! "integrity"); simpl;
    eexists; (split; [reflexivity|]); by simplify_map_eq.
Qed.

(** An entry with a string [name] and no [url] is always added. *)
Lemma addScriptElement_name props name w :
  props !! "url" = None → props !! "name" = Some (JStr name) →
  ∃ element src,
    urlGivenScriptName baseUrl ArrayToString (JStr name) = Normal src ∧
    addScriptElement baseUrl ArrayToString (JObj props) w
      = (Normal tt, w ++ [AppendChild element]) ∧
    element !! "src" = Some (JStr src).
Proof.
  intros Hurl Hname. run_executors. rewrite Hurl, Hname.
  destruct (props !! "type"), (props !! "defer"), (props !! "integrity"); simpl;
    do 2 eexists; (split; [reflexivity|]); (split; [reflexivity|]);
    by simplify_map_eq.
Qed.

(** When [addScriptElement] throws, nothing has been appended. *)
Lemma addScriptElement_throws customScript e w w' :
  addScriptElement baseUrl ArrayToString customScript w = (Throw e, w') → w' = w.
Proof.
  destruct customScript as [| | | | | |props]; run_executors;
    try (intros [= _ <-]; done).
  by_cases_on props; by intros [= _ <-].
Qed.

Lemma source_error_cases (props : gmap string JSValue) (w : World) :
  ((addScriptElement baseUrl ArrayToString (JObj props) w).1 = Throw bothSources
     ↔ is_Some (props !! "url") ∧ is_Some (props !! "name")) ∧
  ((addScriptElement baseUrl ArrayToString (JObj props) w).1 = Throw noSource
     ↔ props !! "url" = None ∧ props !! "name" = None) ∧
  ((importScript baseUrl ArrayToString (JObj props) w).1 = Normal (Rejected bothSources)
     ↔ is_Some (props !! "url") ∧ is_Some (props !! "name")) ∧
  ((importScript baseUrl ArrayToString (JObj props) w).1 = Normal (Rejected noSource)
     ↔ props !! "url" = None ∧ props !! "name" = None).
Proof.
  run_executors. by_cases_on props.
  all: repeat split; try discriminate; try done; eauto.
  all: try (intros [[? ?] [? ?]]; discriminate).
  all: try (intros [? ?]; discriminate).
  all: try (intros [_ [? ?]]; discriminate).
  all: try (intros [[? ?] _]; discriminate).
Qed.

(** C4: [addScriptElement] throws, and the promise of [importScript] is
    rejected with, the error "Custom script cannot have both `url` and
    `name`." exactly when the entry has both properties, and the error
    "Custom script has neither a `url` nor a `name` property." exactly when
    it has neither; so an entry with exactly one of the two raises neither
    of these errors. *)
Theorem script_source_errors (props : gmap string JSValue) (w : World) :
  ((addScriptElement baseUrl ArrayToString (JObj props) w).1 = Throw bothSources
     ↔ is_Some (props !! "url") ∧ is_Some (props !! "name")) ∧
  ((addScriptElement baseUrl ArrayToString (JObj props) w).1 = Throw noSource
     ↔ props !! "url" = None ∧ props !! "name" = None) ∧
  ((importScript baseUrl ArrayToString (JObj props) w).1 = Normal (Rejected bothSources)
     ↔ is_Some (props !! "url") ∧ is_Some (props !! "name")) ∧
  ((importScript baseUrl ArrayToString (JObj props) w).1 = Normal (Rejected noSource)
     ↔ props !! "url" = None ∧ props !! "name" = None) ∧
  (is_Some (props !! "url") ∧ props !! "name" = None ∨
   props !! "url" = None ∧ is_Some (props !! "name") →
   ∀ e, ScriptSourceError e →
     (addScriptElement baseUrl ArrayToString (JObj props) w).1 ≠ Throw e ∧
     (importScript baseUrl ArrayToString (JObj props) w).1 ≠ Normal (Rejected e)).
Proof.
  destruct (source_error_cases props w) as (Hboth & Hnone & Hboth' & Hnone').
  repeat (split; [done|]).
  intros Hone e [-> | ->]; split; intros Hraised.
  - apply Hboth in Hraised as [[url Hurl] [name Hname]].
    destruct Hone as [[_ ?]|[? _]]; congruence.
  - apply Hboth' in Hraised as [[url Hurl] [name Hname]].
    destruct Hone as [[_ ?]|[? _]]; congruence.
  - apply Hnone in Hraised as [Hurl Hname].
    destruct Hone as [[[? ?] _]|[_ [? ?]]]; congruence.
  - apply Hnone' in Hraised as [Hurl Hname].
    destruct Hone as [[[? ?] _]|[_ [? ?]]]; congruence.
Qed.

(** C1, as the code has it: an entry that has [integrity] and gives its
    source by [url] gets a script element whose [crossOrigin] is
    "anonymous"; for an entry that gives its source by [name], a local
    script, [addScriptElement] copies [integrity] and does not assign
    [crossOrigin]. *)
Theorem integrity_cors (props : gmap string JSValue) integrity w w' :
  props !! "integrity" = Some integrity →
  addScriptElement baseUrl ArrayToString (JObj props) w = (Normal tt, w') →
  ∃ element,
    w' = w ++ [AppendChild element] ∧
    element !! "integrity" = Some integrity ∧
    (is_Some (props !! "url") →
       element !! "crossOrigin" = Some (JStr "anonymous")) ∧
    (props !! "url" = None →
       is_Some (props !! "name") ∧ element !! "crossOrigin" = None).
Proof.
  intros Hintegrity Hrun.
  destruct (addScriptElement_returns _ _ _ Hrun)
    as (element & -> & _ & _ & _ & Hcopied & Hcors).
  exists element. rewrite Hintegrity in Hcopied, Hcors.
  split; [done|]. split; [done|]. split.
  - intros [url Hurl]. by rewrite Hurl in Hcors.
  - intros Hurl. rewrite Hurl in Hcors. split; [|done].
    destruct (props !! "name") eqn:Hname; [eauto|].
    by rewrite (addScriptElement_neither _ _ Hurl Hname) in Hrun.
Qed.

(** C9: the script element that [addScriptElement] appends has its [async]
    property assigned, in the [url] branch and in the [name] branch alike:
    to the entry's [async] when that is a boolean, to false when the entry
    has none, and in general to the entry's value when it is truthy and to
    false when it is not. *)
Theorem async_is_assigned (props : gmap string JSValue) w w' :
  addScriptElement baseUrl ArrayToString (JObj props) w = (Normal tt, w') →
  ∃ element,
    w' = w ++ [AppendChild element] ∧
    (∀ b, props !! "async" = Some (JBool b) →
          element !! "async" = Some (JBool b)) ∧
    (props !! "async" = None → element !! "async" = Some (JBool false)) ∧
    (∀ v, props !! "async" = Some v →
          element !! "async" = Some (if ToBoolean v then v else JBool false)).
Proof.
  intros Hrun.
  destruct (addScriptElement_returns _ _ _ Hrun) as (element & -> & Hasync & _).
  exists element. split; [done|]. rewrite Hasync. unfold JSor. simpl.
  split; [|split].
  - intros b ->. by destruct b.
  - by intros ->.
  - by intros v ->.
Qed.

End Executors.

Lemma forEach_app {R} (callback : JSValue → M R) (done rest : list JSValue) w :
  Array.forEach callback (done ++ rest) w =
    match Array.forEach callback done w with
    | (Normal _, w') => Array.forEach callback rest w'
    | (Throw e, w') => (Throw e, w')
    end.
Proof.
  revert w. induction done as [|item done IH]; intros w; simpl; [done|].
  unfold mbind, M_bind. destruct (callback item w) as [[?|e] w']; [|done].
  apply IH.
Qed.

Lemma timeline_after_job operation moments pending :
  timeline operation moments pending →
  ∃ finished, moments = ownJob operation ++ (ImportDone <$> finished).
Proof.
  induction 1 as [|moments before specifier after _ [finished ->]].
  - exists []. by rewrite app_nil_r.
  - exists (finished ++ [specifier]). by rewrite fmap_app, app_assoc.
Qed.

Lemma importsStarted_imports (started : list JSValue) :
  importsStarted (Import <$> started) = started.
Proof.
  unfold importsStarted.
  induction started as [|first started IH]; simpl; [done|]. by f_equal.
Qed.

Lemma awaitedInTurn_started (started : list JSValue) outcome later :
  started ≠ [] →
  awaitedInTurn false
    ((Performs ∘ Import <$> started) ++ Settles outcome :: later) = false.
Proof.
  destruct started as [|first [|second started]]; [done|..]; intros _; reflexivity.
Qed.

(** What [filter] keeps are the items on which the predicate is true, in
    their order. *)
Lemma filter_selected predicate (items selected : list JSValue) :
  Array.filter predicate items = Normal selected →
  selected = filter (λ item, predicate item = Normal true) items.
Proof.
  revert selected. induction items as [|item items IH]; intros selected; simpl.
  - by intros [= <-].
  - destruct (predicate item) as [keep|e] eqn:Hkeep; simpl; [|done].
    destruct (Array.filter predicate items) as [kept|e]; simpl; [|done].
    intros [= <-]. rewrite (IH kept eq_refl).
    destruct keep.
    + by rewrite filter_cons_True by done.
    + rewrite filter_cons_False; [done|]. by rewrite Hkeep.
Qed.

Section Navigation.

Context (baseUrl : string) (ArrayToString : list JSValue → string).

(** A call of [importScript] never throws; it returns a promise and has
    started the import that the promise awaits, if it awaits one. *)
Lemma importScript_call customScript w :
  ∃ promise,
    (importScript baseUrl ArrayToString customScript []).1 = Normal promise ∧
    importScript baseUrl ArrayToString customScript w =
      (Normal promise,
       w ++ (Import <$> option_list (importAwaited (Normal promise)))).
Proof.
  unfold importScript, async, awaitImport, pure, mbind, M_bind, mret, M_ret,
    mthrow, M_throw, mustNotHave.
  destruct customScript as [| | | | | |props]; simpl;
    try (eexists; split; [reflexivity|]; by rewrite app_nil_r).
  destruct (props !! "url") eqn:?, (props !! "name") as [name|] eqn:?; simpl;
    try destruct (urlGivenScriptName baseUrl ArrayToString name); simpl;
    eexists; (split; [reflexivity|]); by rewrite ?app_nil_r.
Qed.

Lemma forEach_importScript selected w :
  Array.forEach (importScript baseUrl ArrayToString) selected w
    = (Normal tt, w ++ (Import <$> importsOf baseUrl ArrayToString selected)).
Proof.
  revert w. induction selected as [|customScript selected IH]; intros w; simpl.
  - by rewrite app_nil_r.
  - unfold mbind, M_bind.
    destruct (importScript_call customScript w) as (promise & Hpromise & ->).
    rewrite IH, Hpromise, <- app_assoc.
    by destruct (importAwaited (Normal promise)).
Qed.

(** [importScript] awaits the import of the source of the entry and ends
    when it settles; without a source it throws at once. *)
Lemma importScript_source customScript :
  match sourceOf baseUrl ArrayToString customScript with
  | Some source =>
      Tasks.importScript baseUrl ArrayToString customScript
        = Tasks.AwaitImport source Tasks.settle
  | None =>
      ∃ e, Tasks.importScript baseUrl ArrayToString customScript = Tasks.Raise e
  end.
Proof.
  unfold Tasks.importScript, mustNotHave.
  destruct customScript as [| | | | | |props]; simpl; eauto.
  destruct (props !! "url"), (props !! "name") as [name|]; simpl; eauto.
  destruct (urlGivenScriptName baseUrl ArrayToString name); simpl; eauto.
Qed.

(** The promise of the call of [importScript] awaits the import of the
    source of the entry. *)
Lemma importAwaited_source customScript :
  importAwaited (importScript baseUrl ArrayToString customScript []).1
    = sourceOf baseUrl ArrayToString customScript.
Proof.
  unfold importScript, async, awaitImport, pure, mbind, M_bind, mret, M_ret,
    mthrow, M_throw, mustNotHave.
  destruct customScript as [| | | | | |props]; simpl; try done.
  destruct (props !! "url"), (props !! "name") as [name|]; simpl; try done.
  by destruct (urlGivenScriptName baseUrl ArrayToString name).
Qed.

Lemma importsOf_sources (entries : list JSValue) :
  importsOf baseUrl ArrayToString entries
    = omap (sourceOf baseUrl ArrayToString) entries.
Proof.
  unfold importsOf. induction entries as [|customScript entries IH]; simpl; [done|].
  rewrite importAwaited_source.
  destruct (sourceOf baseUrl ArrayToString customScript); [f_equal|]; exact IH.
Qed.

Lemma run_forEach_importScript operation (entries : list JSValue) c :
  Tasks.run operation
    (Tasks.forEach (Tasks.importScript baseUrl ArrayToString) entries) c
  = Tasks.run operation Tasks.Return
      {| Tasks.moments :=
           Tasks.moments c
           ++ (Performs ∘ Import <$> omap (sourceOf baseUrl ArrayToString) entries);
         Tasks.waiting :=
           Tasks.waiting c
           ++ (importing <$> omap (sourceOf baseUrl ArrayToString) entries) |}.
Proof.
  revert c. induction entries as [|customScript entries IH]; intros c; simpl.
  - rewrite !app_nil_r. by destruct c.
  - rewrite IH. pose proof (importScript_source customScript) as Hsource.
    destruct (sourceOf baseUrl ArrayToString customScript) as [source|].
    + rewrite Hsource. simpl. by rewrite <- !app_assoc.
    + destruct Hsource as [e ->]. by simpl.
Qed.

Lemma runCustomNavigateScripts_selected fetch items selected :
  served baseUrl fetch (JArr items) →
  Array.filter shouldRunOnNavigate items = Normal selected →
  Tasks.runCustomNavigateScripts baseUrl ArrayToString fetch
    = Tasks.forEach (Tasks.importScript baseUrl ArrayToString) selected.
Proof.
  intros Hserved Hselected. unfold served in Hserved.
  unfold Tasks.runCustomNavigateScripts, Tasks.runCustomScripts.
  change (resolveAbsoluteUrl baseUrl _) with (manifestUrl baseUrl).
  rewrite Hserved. simpl. by rewrite Hselected.
Qed.

(** The first task of a navigation starts the import of the source of
    each selected entry and settles the operation; the calls of
    [importScript] are left waiting. *)
Lemma navigate_begin fetch items selected :
  served baseUrl fetch (JArr items) →
  Array.filter shouldRunOnNavigate items = Normal selected →
  Tasks.begin (Tasks.runCustomNavigateScripts baseUrl ArrayToString fetch)
    = {| Tasks.moments :=
           (Performs ∘ Import <$> omap (sourceOf baseUrl ArrayToString) selected)
             ++ [Settles (Normal tt)];
         Tasks.waiting :=
           importing <$> omap (sourceOf baseUrl ArrayToString) selected |}.
Proof.
  intros Hserved Hselected.
  rewrite (runCustomNavigateScripts_selected _ _ _ Hserved Hselected).
  unfold Tasks.begin. by rewrite run_forEach_importScript.
Qed.

(** After its first task nothing of a navigation is left to run but the
    ends of the calls of [importScript]: the imports finish, each one
    once, in any order. *)
Lemma navigate_reaches fetch items selected c :
  served baseUrl fetch (JArr items) →
  Array.filter shouldRunOnNavigate items = Normal selected →
  Tasks.reaches (Tasks.runCustomNavigateScripts baseUrl ArrayToString fetch) c →
  ∃ finished remaining,
    Tasks.moments c
      = (Performs ∘ Import <$> omap (sourceOf baseUrl ArrayToString) selected)
          ++ Settles (Normal tt) :: (ImportDone <$> finished) ∧
    Tasks.waiting c = importing <$> remaining ∧
    finished ++ remaining ≡ₚ omap (sourceOf baseUrl ArrayToString) selected.
Proof.
  intros Hserved Hselected.
  induction 1 as [|c before task after outcome _
                    (finished & remaining & Hmoments & Hwaiting & Hall) Htask].
  - exists [], (omap (sourceOf baseUrl ArrayToString) selected).
    by rewrite (navigate_begin _ _ _ Hserved Hselected).
  - rewrite Hwaiting in Htask.
    apply fmap_app_inv in Htask as (earlier & rest & -> & Hrest & ->).
    symmetry in Hrest.
    apply fmap_cons_inv in Hrest as (source & later & -> & -> & ->).
    exists (finished ++ [source]), (earlier ++ later).
    assert (∀ c', Tasks.run false (Tasks.settle outcome) c' = c') as ->
      by (by destruct outcome).
    simpl. split; [|split].
    + by rewrite Hmoments, fmap_app, <- !app_assoc.
    + by rewrite fmap_app.
    + rewrite <- Hall, <- !app_assoc. apply Permutation_app_head.
      simpl. apply Permutation_middle.
Qed.

(** C2, as the code has it: on navigation the entries that pass
    [shouldRunOnNavigate] are handed to [importScript] in manifest order,
    and the import of the source of each one that has a source is started:
    its [url] as it is written, or the URL of its [name].  No import is
    awaited.  The first task of the operation starts them all and settles
    the operation with every one of them pending, each awaited by its own
    call of [importScript] alone; the imports finish after that, in any
    order, so that on no timeline is an import awaited before the next one
    starts or before the operation resolves. *)
Theorem navigate_imports_started_not_awaited fetch items selected :
  served baseUrl fetch (JArr items) →
  Array.filter shouldRunOnNavigate items = Normal selected →
  selected = filter (λ item, shouldRunOnNavigate item = Normal true) items ∧
  (∀ w, runCustomNavigateScripts baseUrl ArrayToString fetch w
          = (Normal tt,
             w ++ (Import <$> omap (sourceOf baseUrl ArrayToString) selected))) ∧
  Tasks.begin (Tasks.runCustomNavigateScripts baseUrl ArrayToString fetch)
    = {| Tasks.moments :=
           (Performs ∘ Import <$> omap (sourceOf baseUrl ArrayToString) selected)
             ++ [Settles (Normal tt)];
         Tasks.waiting :=
           importing <$> omap (sourceOf baseUrl ArrayToString) selected |} ∧
  (∀ c,
     Tasks.reaches (Tasks.runCustomNavigateScripts baseUrl ArrayToString fetch) c →
     ∃ finished remaining,
       Tasks.moments c
         = (Performs ∘ Import <$> omap (sourceOf baseUrl ArrayToString) selected)
             ++ Settles (Normal tt) :: (ImportDone <$> finished) ∧
       Tasks.waiting c = importing <$> remaining ∧
       finished ++ remaining ≡ₚ omap (sourceOf baseUrl ArrayToString) selected) ∧
  (omap (sourceOf baseUrl ArrayToString) selected ≠ [] →
   ∀ c,
     Tasks.reaches (Tasks.runCustomNavigateScripts baseUrl ArrayToString fetch) c →
     awaitedInTurn false (Tasks.moments c) = false).
Proof.
  intros Hserved Hselected.
  split; [by apply filter_selected|]. split; [|split; [|split]].
  - intros w. unfold runCustomNavigateScripts.
    rewrite (runCustomScripts_served _ _ _ _ _ _ Hserved), Hselected.
    by rewrite forEach_importScript, importsOf_sources.
  - exact (navigate_begin _ _ _ Hserved Hselected).
  - intros c Hc. exact (navigate_reaches _ _ _ _ Hserved Hselected Hc).
  - intros Hstarted c Hc.
    destruct (navigate_reaches _ _ _ _ Hserved Hselected Hc)
      as (finished & _ & -> & _).
    by apply awaitedInTurn_started.
Qed.

(** C3, as the code has it: an error raised while the entries are
    classified rejects the dispatch, on page load and on navigation, before
    any entry is run; on page load the first entry on which
    [addScriptElement] throws rejects the dispatch with that error, the
    entries before it have been added and those after it are not run. *)
Theorem dispatch_errors_surface fetch items w :
  served baseUrl fetch (JArr items) →
  (∀ e, Array.filter shouldRunOnPageLoad items = Throw e →
        runCustomPageLoadScripts baseUrl ArrayToString fetch w = (Throw e, w)) ∧
  (∀ e, Array.filter shouldRunOnNavigate items = Throw e →
        runCustomNavigateScripts baseUrl ArrayToString fetch w = (Throw e, w)) ∧
  (∀ added entry rest e w',
     Array.filter shouldRunOnPageLoad items = Normal (added ++ entry :: rest) →
     Array.forEach (addScriptElement baseUrl ArrayToString) added w = (Normal tt, w') →
     (addScriptElement baseUrl ArrayToString entry w').1 = Throw e →
     runCustomPageLoadScripts baseUrl ArrayToString fetch w = (Throw e, w')).
Proof.
  intros Hserved.
  unfold runCustomPageLoadScripts, runCustomNavigateScripts.
  rewrite !(runCustomScripts_served _ _ _ _ _ _ Hserved).
  split; [|split].
  - by intros e ->.
  - by intros e ->.
  - intros added entry rest e w' -> Hadded Hentry.
    rewrite forEach_app, Hadded. simpl. unfold mbind, M_bind.
    destruct (addScriptElement baseUrl ArrayToString entry w') as [outcome w'']
      eqn:Hcall.
    simpl in Hentry. subst outcome.
    by rewrite (addScriptElement_throws _ _ _ _ _ _ Hcall).
Qed.

End Navigation.

(** ** The properties at the samples *)

(** Of [a] (on-load), [b] (on-navigate) and [c] (no [run]), page load adds
    [a] and [c], in that order, and navigation imports [b] only. *)
Example page_load_then_navigation :
  runCustomPageLoadScripts "/docs" Sample.arrayToString
      (Sample.serving (JArr [Sample.a; Sample.b; Sample.c])) []
    = (Normal tt, [AppendChild Sample.aElement; AppendChild Sample.cElement]) ∧
  runCustomNavigateScripts "/docs" Sample.arrayToString
      (Sample.serving (JArr [Sample.a; Sample.b; Sample.c])) []
    = (Normal tt, [Import (JStr "/docs/custom-scripts/b.js")]).
Proof. split; vm_compute; reflexivity. Qed.

(** C7 on a host without a manifest. *)
Lemma absent_manifest_is_silent_sample :
  runCustomPageLoadScripts "/docs" Sample.arrayToString Sample.notFound []
    = (Normal tt, []) ∧
  runCustomNavigateScripts "/docs" Sample.arrayToString Sample.notFound []
    = (Normal tt, []).
Proof.
  apply (absent_manifest_is_silent "/docs" Sample.arrayToString Sample.notFound
           {| ok := false; json := Throw SyntaxError |} []); reflexivity.
Defined.

(** C8 on a manifest whose body is an object. *)
Lemma non_array_manifest_is_rejected_sample :
  runCustomPageLoadScripts "/docs" Sample.arrayToString
      (Sample.serving (JObj Sample.localProps)) []
    = (Throw ManifestFormatError, []) ∧
  runCustomNavigateScripts "/docs" Sample.arrayToString
      (Sample.serving (JObj Sample.localProps)) []
    = (Throw ManifestFormatError, []).
Proof.
  apply (non_array_manifest_is_rejected "/docs" Sample.arrayToString
           (Sample.serving (JObj Sample.localProps)) (JObj Sample.localProps) []);
    reflexivity.
Defined.

(** C10 on an entry whose [run] is "always", between two others. *)
Lemma unrecognized_run_is_skipped_sample :
  shouldRunOnPageLoad (JObj Sample.oddProps) = Normal false ∧
  shouldRunOnNavigate (JObj Sample.oddProps) = Normal false ∧
  runCustomPageLoadScripts "/docs" Sample.arrayToString
      (Sample.serving (JArr ([Sample.a] ++ JObj Sample.oddProps :: [Sample.b]))) []
    = runCustomPageLoadScripts "/docs" Sample.arrayToString
        (Sample.serving (JArr ([Sample.a] ++ [Sample.b]))) [] ∧
  runCustomNavigateScripts "/docs" Sample.arrayToString
      (Sample.serving (JArr ([Sample.a] ++ JObj Sample.oddProps :: [Sample.b]))) []
    = runCustomNavigateScripts "/docs" Sample.arrayToString
        (Sample.serving (JArr ([Sample.a] ++ [Sample.b]))) [].
Proof.
  apply (unrecognized_run_is_skipped "/docs" Sample.arrayToString
           (Sample.serving (JArr ([Sample.a] ++ JObj Sample.oddProps :: [Sample.b])))
           (Sample.serving (JArr ([Sample.a] ++ [Sample.b])))
           Sample.oddProps (JStr "always") [Sample.a] [Sample.b] []);
    first [reflexivity | discriminate].
Defined.

(** C6 on the names "hello-world.js" and "hello-world". *)
Lemma urlGivenScriptName_extension_sample :
  urlGivenScriptName "/docs" Sample.arrayToString (JStr "hello-world.js")
    = Normal "/docs/custom-scripts/hello-world.js" ∧
  urlGivenScriptName "/docs" Sample.arrayToString (JStr "hello-world")
    = Normal "/docs/custom-scripts/hello-world.js".
Proof.
  split.
  - apply (proj1 (urlGivenScriptName_extension "/docs" Sample.arrayToString
                    "hello-world.js")).
    exists "hello-world". reflexivity.
  - apply (proj1 (proj2 (urlGivenScriptName_extension "/docs" Sample.arrayToString
                           "hello-world"))).
    intros Hends. apply (proj2 (slice_extension "hello-world")) in Hends.
    discriminate Hends.
Defined.

(** C1 does not hold as stated: a local script with [integrity] gets a
    script element that carries the digest and whose [crossOrigin] is not
    assigned. *)
Lemma local_script_integrity_without_cors :
  addScriptElement "/docs" Sample.arrayToString (JObj Sample.localProps) []
    = (Normal tt, [AppendChild Sample.localElement]) ∧
  Sample.localProps !! "integrity" = Some Sample.digest ∧
  Sample.localElement !! "integrity" = Some Sample.digest ∧
  Sample.localElement !! "crossOrigin" = None.
Proof. repeat split; vm_compute; reflexivity. Qed.

(** C1, as the code has it, on an external script with [integrity]. *)
Lemma integrity_cors_sample :
  ∃ element,
    [AppendChild Sample.externalElement] = [] ++ [AppendChild element] ∧
    element !! "integrity" = Some Sample.digest ∧
    (is_Some (Sample.externalProps !! "url") →
       element !! "crossOrigin" = Some (JStr "anonymous")) ∧
    (Sample.externalProps !! "url" = None →
       is_Some (Sample.externalProps !! "name") ∧ element !! "crossOrigin" = None).
Proof.
  apply (integrity_cors "/docs" Sample.arrayToString Sample.externalProps
           Sample.digest [] [AppendChild Sample.externalElement]);
    vm_compute; reflexivity.
Defined.

(** C9 on a local script without [async]. *)
Lemma async_is_assigned_sample :
  ∃ element,
    [AppendChild Sample.localElement] = [] ++ [AppendChild element] ∧
    (∀ b, Sample.localProps !! "async" = Some (JBool b) →
          element !! "async" = Some (JBool b)) ∧
    (Sample.localProps !! "async" = None → element !! "async" = Some (JBool false)) ∧
    (∀ v, Sample.localProps !! "async" = Some v →
          element !! "async" = Some (if ToBoolean v then v else JBool false)).
Proof.
  apply (async_is_assigned "/docs" Sample.arrayToString Sample.localProps
           [] [AppendChild Sample.localElement]);
    vm_compute; reflexivity.
Defined.

(** C2 does not hold as stated: with two scripts to run on navigation, the
    second import starts while the first is pending, and the operation
    resolves while both are; no timeline has them awaited in turn. *)
Lemma navigate_imports_overlap :
  ownJob (runCustomNavigateScripts "/docs" Sample.arrayToString
            (Sample.serving (JArr [Sample.a; Sample.b; Sample.c; Sample.d])))
    = [Performs (Import (JStr "/docs/custom-scripts/b.js"));
       Performs (Import (JStr "https://example.com/d.js"));
       Settles (Normal tt)] ∧
  (∀ moments pending,
    timeline (runCustomNavigateScripts "/docs" Sample.arrayToString
                (Sample.serving (JArr [Sample.a; Sample.b; Sample.c; Sample.d])))
      moments pending →
    awaitedInTurn false moments = false) ∧
  Tasks.begin (Tasks.runCustomNavigateScripts "/docs" Sample.arrayToString
                 (Sample.serving (JArr [Sample.a; Sample.b; Sample.c; Sample.d])))
    = {| Tasks.moments :=
           [Performs (Import (JStr "/docs/custom-scripts/b.js"));
            Performs (Import (JStr "https://example.com/d.js"));
            Settles (Normal tt)];
         Tasks.waiting :=
           [importing (JStr "/docs/custom-scripts/b.js");
            importing (JStr "https://example.com/d.js")] |} ∧
  ∀ c,
    Tasks.reaches (Tasks.runCustomNavigateScripts "/docs" Sample.arrayToString
                     (Sample.serving
                        (JArr [Sample.a; Sample.b; Sample.c; Sample.d]))) c →
    awaitedInTurn false (Tasks.moments c) = false.
Proof.
  assert (ownJob (runCustomNavigateScripts "/docs" Sample.arrayToString
            (Sample.serving (JArr [Sample.a; Sample.b; Sample.c; Sample.d])))
    = [Performs (Import (JStr "/docs/custom-scripts/b.js"));
       Performs (Import (JStr "https://example.com/d.js"));
       Settles (Normal tt)]) as Hjob by (vm_compute; reflexivity).
  split; [done|]. split; [|split].
  - intros moments pending [finished ->]%timeline_after_job.
    by rewrite Hjob.
  - vm_compute. reflexivity.
  - intros c Hc.
    destruct (navigate_reaches "/docs" Sample.arrayToString
                (Sample.serving (JArr [Sample.a; Sample.b; Sample.c; Sample.d]))
                [Sample.a; Sample.b; Sample.c; Sample.d] [Sample.b; Sample.d] c)
      as (finished & _ & -> & _); [vm_compute; reflexivity..|exact Hc|].
    reflexivity.
Qed.

(** C2, as the code has it, on the manifest of [a], [b], [c] and [d]. *)
Lemma navigate_imports_started_not_awaited_sample :
  [Sample.b; Sample.d]
    = filter (λ item, shouldRunOnNavigate item = Normal true)
        [Sample.a; Sample.b; Sample.c; Sample.d] ∧
  (∀ w, runCustomNavigateScripts "/docs" Sample.arrayToString
          (Sample.serving (JArr [Sample.a; Sample.b; Sample.c; Sample.d])) w
        = (Normal tt,
           w ++ (Import <$> omap (sourceOf "/docs" Sample.arrayToString)
                              [Sample.b; Sample.d]))) ∧
  Tasks.begin (Tasks.runCustomNavigateScripts "/docs" Sample.arrayToString
                 (Sample.serving (JArr [Sample.a; Sample.b; Sample.c; Sample.d])))
    = {| Tasks.moments :=
           (Performs ∘ Import <$> omap (sourceOf "/docs" Sample.arrayToString)
                                    [Sample.b; Sample.d])
             ++ [Settles (Normal tt)];
         Tasks.waiting :=
           importing <$> omap (sourceOf "/docs" Sample.arrayToString)
                           [Sample.b; Sample.d] |} ∧
  (∀ c,
     Tasks.reaches (Tasks.runCustomNavigateScripts "/docs" Sample.arrayToString
                      (Sample.serving
                         (JArr [Sample.a; Sample.b; Sample.c; Sample.d]))) c →
     ∃ finished remaining,
       Tasks.moments c
         = (Performs ∘ Import <$> omap (sourceOf "/docs" Sample.arrayToString)
                                    [Sample.b; Sample.d])
             ++ Settles (Normal tt) :: (ImportDone <$> finished) ∧
       Tasks.waiting c = importing <$> remaining ∧
       finished ++ remaining
         ≡ₚ omap (sourceOf "/docs" Sample.arrayToString) [Sample.b; Sample.d]) ∧
  (omap (sourceOf "/docs" Sample.arrayToString) [Sample.b; Sample.d] ≠ [] →
   ∀ c,
     Tasks.reaches (Tasks.runCustomNavigateScripts "/docs" Sample.arrayToString
                      (Sample.serving
                         (JArr [Sample.a; Sample.b; Sample.c; Sample.d]))) c →
     awaitedInTurn false (Tasks.moments c) = false).
Proof.
  apply (navigate_imports_started_not_awaited "/docs" Sample.arrayToString
           (Sample.serving (JArr [Sample.a; Sample.b; Sample.c; Sample.d]))
           [Sample.a; Sample.b; Sample.c; Sample.d] [Sample.b; Sample.d]);
    vm_compute; reflexivity.
Defined.

(** The imports that the first task of the navigation above starts. *)
Example navigate_sources :
  omap (sourceOf "/docs" Sample.arrayToString)
       [Sample.a; Sample.b; Sample.c; Sample.d]
    = [JStr "/docs/custom-scripts/a.js"; JStr "/docs/custom-scripts/b.js";
       JStr "/docs/custom-scripts/c.js"; JStr "https://example.com/d.js"] ∧
  Tasks.moments
    (Tasks.begin (Tasks.runCustomNavigateScripts "/docs" Sample.arrayToString
                    (Sample.serving
                       (JArr [Sample.a; Sample.b; Sample.c; Sample.d]))))
    = [Performs (Import (JStr "/docs/custom-scripts/b.js"));
       Performs (Import (JStr "https://example.com/d.js"));
       Settles (Normal tt)].
Proof. split; vm_compute; reflexivity. Qed.

(** Were the entries awaited in turn, as [Tasks.awaitEach] does, the
    import of [d] would start when that of [b] is done, and the operation
    would settle after both. *)
Example awaited_in_turn_sample :
  ∃ c,
    Tasks.reaches
      (Tasks.awaitEach (Tasks.importScript "/docs" Sample.arrayToString)
         [Sample.b; Sample.d]) c ∧
    Tasks.moments c
      = [Performs (Import (JStr "/docs/custom-scripts/b.js"));
         ImportDone (JStr "/docs/custom-scripts/b.js");
         Performs (Import (JStr "https://example.com/d.js"));
         ImportDone (JStr "https://example.com/d.js");
         Settles (Normal tt)] ∧
    Tasks.waiting c = [] ∧
    awaitedInTurn false (Tasks.moments c) = true.
Proof.
  eexists. split.
  - eapply (Tasks.reaches_import_done _ _ [] _ [] (Normal tt)).
    + eapply (Tasks.reaches_import_done _ _ [] _ [] (Normal tt));
        [apply Tasks.reaches_begin|reflexivity].
    + reflexivity.
  - vm_compute. done.
Qed.

(** C4 does not hold as stated: the errors do not have the messages the
    claim gives.  The source writes [url] and [name] in backquotes and ends
    the sentence with a period; an entry with both sources, and one with
    neither, raise these and not the messages without them. *)
Lemma source_error_messages_differ :
  ((addScriptElement "/docs" Sample.arrayToString Sample.doubled []).1
     = Throw (Error "Custom script cannot have both `url` and `name`.") ∧
   (addScriptElement "/docs" Sample.arrayToString Sample.doubled []).1
     ≠ Throw (Error "Custom script cannot have both url and name")) ∧
  ((importScript "/docs" Sample.arrayToString Sample.doubled []).1
     = Normal (Rejected (Error "Custom script cannot have both `url` and `name`.")) ∧
   (importScript "/docs" Sample.arrayToString Sample.doubled []).1
     ≠ Normal (Rejected (Error "Custom script cannot have both url and name"))) ∧
  ((addScriptElement "/docs" Sample.arrayToString Sample.sourceless []).1
     = Throw (Error "Custom script has neither a `url` nor a `name` property.") ∧
   (addScriptElement "/docs" Sample.arrayToString Sample.sourceless []).1
     ≠ Throw (Error "Custom script has neither a url nor a name property")) ∧
  ((importScript "/docs" Sample.arrayToString Sample.sourceless []).1
     = Normal (Rejected (Error "Custom script has neither a `url` nor a `name` property.")) ∧
   (importScript "/docs" Sample.arrayToString Sample.sourceless []).1
     ≠ Normal (Rejected (Error "Custom script has neither a url nor a name property"))).
Proof.
  repeat split; try (vm_compute; reflexivity); vm_compute; discriminate.
Qed.

(** C4, as the code has it, on a local script: with a [name] and no [url]
    neither executor raises an error about the source. *)
Lemma script_source_errors_sample :
  (Sample.localProps !! "url" = None ∧ is_Some (Sample.localProps !! "name")) ∧
  ∀ e, ScriptSourceError e →
    (addScriptElement "/docs" Sample.arrayToString (JObj Sample.localProps) []).1
      ≠ Throw e ∧
    (importScript "/docs" Sample.arrayToString (JObj Sample.localProps) []).1
      ≠ Normal (Rejected e).
Proof.
  assert (Sample.localProps !! "url" = None
          ∧ is_Some (Sample.localProps !! "name")) as Hlocal
    by (split; vm_compute; eauto).
  split; [exact Hlocal|].
  apply (script_source_errors "/docs" Sample.arrayToString Sample.localProps []).
  right. exact Hlocal.
Defined.

(** C3 does not hold as stated: on navigation an entry without a source
    rejects the promise of its own [importScript] call, and the dispatch
    still starts the import of the entry after it and resolves. *)
Lemma rejected_import_is_not_surfaced :
  (importScript "/docs" Sample.arrayToString Sample.sourceless []).1
    = Normal (Rejected noSource) ∧
  runCustomNavigateScripts "/docs" Sample.arrayToString
      (Sample.serving (JArr [Sample.sourceless; Sample.d])) []
    = (Normal tt, [Import (JStr "https://example.com/d.js")]).
Proof. split; vm_compute; reflexivity. Qed.

(** C3, as the code has it, on a page load whose third entry has no source. *)
Lemma dispatch_errors_surface_sample :
  runCustomPageLoadScripts "/docs" Sample.arrayToString
      (Sample.serving (JArr [Sample.a; Sample.b; Sample.sourceless; Sample.c])) []
    = (Throw noSource, [AppendChild Sample.aElement]).
Proof.
  apply (proj2 (proj2 (dispatch_errors_surface "/docs" Sample.arrayToString
           (Sample.serving (JArr [Sample.a; Sample.b; Sample.sourceless; Sample.c]))
           [Sample.a; Sample.b; Sample.sourceless; Sample.c] [] eq_refl))
           [Sample.a] Sample.sourceless [Sample.c] noSource
           [AppendChild Sample.aElement]);
    vm_compute; reflexivity.
Defined.

(** * Further properties of [custom-scripts.js] *)

Section Manifest.

Context (baseUrl : string) (ArrayToString : list JSValue → string).
Context {R : Type} (predicate : JSValue → Completion bool) (executor : JSValue → M R).

(** [runCustomScripts], by what the host answers. *)
Lemma runCustomScripts_cases fetch w :
  runCustomScripts baseUrl fetch predicate executor w =
    match fetch (manifestUrl baseUrl) with
    | Throw e => (Throw e, w)
    | Normal response =>
        if ok response then
          match json response with
          | Throw e => (Throw e, w)
          | Normal (JArr items) =>
              match Array.filter predicate items with
              | Normal selected => Array.forEach executor selected w
              | Throw e => (Throw e, w)
              end
          | Normal _ => (Throw ManifestFormatError, w)
          end
        else (Normal tt, w)
    end.
Proof.
  unfold runCustomScripts.
  change (resolveAbsoluteUrl baseUrl _) with (manifestUrl baseUrl).
  unfold mbind, M_bind, pure.
  destruct (fetch (manifestUrl baseUrl)) as [[[] [body|e]]|e]; simpl; try done.
  by destruct body.
Qed.

End Manifest.

Section ManifestFailures.

Context (baseUrl : string) (ArrayToString : list JSValue → string).

(** X1: when the fetch of the manifest is rejected, or the manifest exists
    and its body fails to parse as JSON, both dispatch operations are
    rejected with that same error and leave the host as it was: unlike a
    manifest that does not exist, neither failure is passed over. *)
Theorem failed_manifest_rejects fetch e w :
  fetch (manifestUrl baseUrl) = Throw e ∨
  fetch (manifestUrl baseUrl) = Normal {| ok := true; json := Throw e |} →
  runCustomPageLoadScripts baseUrl ArrayToString fetch w = (Throw e, w) ∧
  runCustomNavigateScripts baseUrl ArrayToString fetch w = (Throw e, w).
Proof.
  intros Hfailed. unfold runCustomPageLoadScripts, runCustomNavigateScripts.
  rewrite !runCustomScripts_cases.
  by destruct Hfailed as [-> | ->].
Qed.

End ManifestFailures.

Section Elements.

Context (baseUrl : string) (ArrayToString : list JSValue → string).

Local Ltac run :=
  unfold addScriptElement, importScript, async, awaitImport, appendChild, pure,
    mbind, M_bind, mret, M_ret, mthrow, M_throw, mustNotHave, createElement;
  simpl.

Local Ltac cases_of props :=
  destruct (props !! "type") eqn:?, (props !! "url") eqn:?,
    (props !! "name") as [name|] eqn:?, (props !! "defer") eqn:?,
    (props !! "integrity") eqn:?;
  simpl;
  try (destruct (urlGivenScriptName baseUrl ArrayToString name)
         as [resolved|raised] eqn:Hresolved);
  simpl.

(** What [addScriptElement] does to a document is what it does to an empty
    one, after what was there. *)
Lemma addScriptElement_frame customScript w :
  addScriptElement baseUrl ArrayToString customScript w =
    ((addScriptElement baseUrl ArrayToString customScript []).1,
     w ++ (addScriptElement baseUrl ArrayToString customScript []).2).
Proof.
  destruct customScript as [| | | | | |props]; run; rewrite ?app_nil_r; try done.
  cases_of props; by rewrite ?app_nil_r.
Qed.

(** [addScriptElement] appends one element or throws, the same on every
    document. *)
Lemma addScriptElement_outcome (customScript : JSValue) :
  (∃ element, ∀ w,
     addScriptElement baseUrl ArrayToString customScript w
       = (Normal tt, w ++ [AppendChild element])) ∨
  (∃ e, ∀ w,
     addScriptElement baseUrl ArrayToString customScript w = (Throw e, w)).
Proof.
  destruct (addScriptElement baseUrl ArrayToString customScript [])
    as [[[]|e] added] eqn:Hrun.
  - left.
    assert (∃ element, added = [AppendChild element]) as [element ->].
    { destruct customScript as [| | | | | |props];
        try (revert Hrun; run; discriminate).
      destruct (addScriptElement_returns _ _ _ _ _ Hrun) as (element & -> & _).
      by exists element. }
    exists element. intros w. by rewrite addScriptElement_frame, Hrun.
  - right. exists e. intros w. rewrite addScriptElement_frame, Hrun. simpl.
    apply addScriptElement_throws in Hrun as ->. by rewrite app_nil_r.
Qed.

(** X2: on every JSON value, [addScriptElement] either appends exactly one
    script element to the document and returns, or throws and leaves the
    document as it was; which of the two, and which element, does not
    depend on what the document holds. *)
Theorem addScriptElement_all_or_nothing (customScript : JSValue) :
  (∃ element, ∀ w,
     addScriptElement baseUrl ArrayToString customScript w
       = (Normal tt, w ++ [AppendChild element])) ∨
  (∃ e, ∀ w,
     addScriptElement baseUrl ArrayToString customScript w = (Throw e, w)).
Proof. apply addScriptElement_outcome. Qed.

Lemma dom_insert_within (m : gmap string JSValue) k v (allowed : gset string) :
  bool_decide (k ∈ allowed) = true → dom m ⊆ allowed → dom (<[k:=v]> m) ⊆ allowed.
Proof.
  intros Hk%bool_decide_eq_true_1 Hm. rewrite dom_insert.
  apply union_least; [by apply singleton_subseteq_l | done].
Qed.

(** X3: the script element that [addScriptElement] appends for an entry
    carries no property but [type], [src], [async], [defer], [integrity]
    and [crossOrigin]; [type], [defer] and [integrity] are the entry's,
    present exactly when the entry has them; [src] is the entry's [url] as
    it is written, or else the URL its [name] resolves to. *)
Theorem script_element_properties (props : gmap string JSValue) w w' :
  addScriptElement baseUrl ArrayToString (JObj props) w = (Normal tt, w') →
  ∃ element,
    w' = w ++ [AppendChild element] ∧
    dom element ⊆ {[ "type"; "src"; "async"; "defer"; "integrity"; "crossOrigin" ]} ∧
    element !! "type" = props !! "type" ∧
    element !! "defer" = props !! "defer" ∧
    element !! "integrity" = props !! "integrity" ∧
    (∀ url, props !! "url" = Some url → element !! "src" = Some url) ∧
    (∀ name, props !! "url" = None → props !! "name" = Some name →
       ∃ src, urlGivenScriptName baseUrl ArrayToString name = Normal src ∧
              element !! "src" = Some (JStr src)).
Proof.
  run. cases_of props; intros [= <-]; eexists; (split; [reflexivity|]);
    (split; [repeat (apply dom_insert_within; [by vm_compute|]);
             rewrite dom_empty; apply empty_subseteq|]);
    (split; [by simplify_map_eq|]); (split; [by simplify_map_eq|]);
    (split; [by simplify_map_eq|]);
    (split; [intros ? [= <-] || intros ? [=]; by simplify_map_eq|]).
  all: intros name' Hurl Hname; try discriminate.
  all: injection Hname as <-; exists resolved; split; [exact Hresolved|].
  all: by simplify_map_eq.
Qed.

(** X4: an entry without [url] whose [name] is neither a string nor an
    array (a number, a boolean, null, an object) has no [slice] to call:
    [addScriptElement] throws a [TypeError] with nothing appended, and the
    promise of [importScript] is rejected with a [TypeError] with no import
    started. *)
Theorem name_without_slice_is_a_TypeError (props : gmap string JSValue) name w :
  props !! "url" = None →
  props !! "name" = Some name →
  (∀ s, name ≠ JStr s) →
  (∀ items, name ≠ JArr items) →
  addScriptElement baseUrl ArrayToString (JObj props) w = (Throw TypeError, w) ∧
  importScript baseUrl ArrayToString (JObj props) w = (Normal (Rejected TypeError), w).
Proof.
  intros Hurl Hname Hstring Harray.
  assert (urlGivenScriptName baseUrl ArrayToString name = Throw TypeError) as Hraised.
  { destruct name; try reflexivity; [by destruct (Hstring s) | by destruct (Harray items)]. }
  run. rewrite Hurl, Hname. simpl. rewrite Hraised.
  by destruct (props !! "type").
Qed.

(** X5: a call of [importScript] never throws.  It either starts exactly
    one import and returns the promise that awaits it, or starts none and
    returns a rejected promise. *)
Theorem importScript_one_import_or_rejection (customScript : JSValue) (w : World) :
  (∃ specifier,
     importScript baseUrl ArrayToString customScript w
       = (Normal (AwaitingImport specifier), w ++ [Import specifier])) ∨
  (∃ e,
     importScript baseUrl ArrayToString customScript w = (Normal (Rejected e), w)).
Proof.
  destruct customScript as [| | | | | |props]; run; try (right; eauto; fail).
  destruct (props !! "url"), (props !! "name") as [name|]; simpl;
    try destruct (urlGivenScriptName baseUrl ArrayToString name); simpl; eauto.
Qed.

(** X6: the two executors agree on the source of an entry:
    [addScriptElement] appends an element whose [src] is a given value
    exactly when [importScript] starts the import of that value. *)
Theorem executors_agree_on_the_source (props : gmap string JSValue) source w :
  (∃ element,
     addScriptElement baseUrl ArrayToString (JObj props) w
       = (Normal tt, w ++ [AppendChild element]) ∧
     element !! "src" = Some source)
  ↔ importScript baseUrl ArrayToString (JObj props) w
      = (Normal (AwaitingImport source), w ++ [Import source]).
Proof.
  run. cases_of props; split.
  all: try (intros (element & [= Hadded] & Hsrc)).
  all: try (intros [= Himported]).
  all: try (apply app_inv_head in Hadded as [= <-]).
  all: try (apply app_inv_head in Himported as [= <-]).
  all: try (eexists; split; [reflexivity | by simplify_map_eq]).
  all: try (by simplify_map_eq).
Qed.

End Elements.

Lemma length_string_app (s t : string) :
  String.length (s +:+ t) = String.length s + String.length t.
Proof.
  rewrite <- !length_list_ascii_of_string, list_ascii_of_string_app.
  apply length_app.
Qed.

Section Dispatched.

Context (baseUrl : string) (ArrayToString : list JSValue → string).

(** X7: whatever the name, the URL of a local script is the base path, the
    "custom-scripts" segment and a file name that ends in ".js"; a name of
    fewer than three characters always gets the extension, "js" itself
    included. *)
Theorem local_script_url_ends_in_js (name : JSValue) (url : string) :
  urlGivenScriptName baseUrl ArrayToString name = Normal url →
  (∃ stem, url = baseUrl +:+ "/custom-scripts/" +:+ stem +:+ ".js") ∧
  (∀ short, name = JStr short → String.length short < 3 →
     url = baseUrl +:+ "/custom-scripts/" +:+ short +:+ ".js").
Proof.
  assert (∀ n, resolveAbsoluteUrl baseUrl (PathParts [""; "custom-scripts"; n])
               = baseUrl +:+ "/custom-scripts/" +:+ n) as Hresolve by done.
  destruct name as [| | | |s|items|]; simpl; try discriminate;
    rewrite Hresolve; intros [= <-].
  - destruct (String.eqb_spec (slice s (-3)) ".js") as [Hext|Hnone]; simpl.
    + apply slice_extension in Hext as [stem ->]. split; [by exists stem|].
      intros short [= <-]. rewrite length_string_app. simpl. lia.
    + split; [by exists s|]. by intros short [= <-].
  - split; [by eexists|]. discriminate.
Qed.

Lemma forEach_addScriptElement (selected : list JSValue) w :
  ∃ elements,
    (Array.forEach (addScriptElement baseUrl ArrayToString) selected w).2
      = w ++ (AppendChild <$> elements).
Proof.
  revert w. induction selected as [|customScript selected IH]; intros w; simpl.
  - exists []. by rewrite app_nil_r.
  - unfold mbind, M_bind.
    destruct (addScriptElement_outcome baseUrl ArrayToString customScript)
      as [[element ->]|[e ->]].
    + destruct (IH (w ++ [AppendChild element])) as [elements ->].
      exists (element :: elements). by rewrite <- app_assoc.
    + exists []. by rewrite app_nil_r.
Qed.

(** A dispatch on page load only appends elements, one on navigation only
    starts imports. *)
Lemma dispatch_appends fetch w :
  (∃ elements,
     (runCustomPageLoadScripts baseUrl ArrayToString fetch w).2
       = w ++ (AppendChild <$> elements)) ∧
  (∃ specifiers,
     (runCustomNavigateScripts baseUrl ArrayToString fetch w).2
       = w ++ (Import <$> specifiers)).
Proof.
  unfold runCustomPageLoadScripts, runCustomNavigateScripts.
  rewrite !runCustomScripts_cases.
  assert (∃ none : list Element, w = w ++ (AppendChild <$> none)) as Hsame
    by (exists []; by rewrite app_nil_r).
  assert (∃ none : list JSValue, w = w ++ (Import <$> none)) as Hsame'
    by (exists []; by rewrite app_nil_r).
  destruct (fetch (manifestUrl baseUrl)) as [[[] [body|e]]|e]; simpl; try done.
  destruct body as [| | | | |items|]; simpl; try done.
  split.
  - destruct (Array.filter shouldRunOnPageLoad items); [|done].
    apply forEach_addScriptElement.
  - destruct (Array.filter shouldRunOnNavigate items) as [selected|]; [|done].
    rewrite forEach_importScript. by eexists.
Qed.

(** X8: whatever the host answers and whatever the manifest holds, a
    dispatch on page load does nothing to the host but append script
    elements to the document, and a dispatch on navigation nothing but
    start imports; what was there before stays, in its order. *)
Theorem dispatch_effects fetch w :
  (∃ elements,
     (runCustomPageLoadScripts baseUrl ArrayToString fetch w).2
       = w ++ (AppendChild <$> elements)) ∧
  (∃ specifiers,
     (runCustomNavigateScripts baseUrl ArrayToString fetch w).2
       = w ++ (Import <$> specifiers)).
Proof. apply dispatch_appends. Qed.

Lemma forEach_addScriptElement_returns (selected : list JSValue) elements w :
  Array.forEach (addScriptElement baseUrl ArrayToString) selected w
    = (Normal tt, w ++ (AppendChild <$> elements))
  ↔ Forall2 (λ customScript element,
               addScriptElement baseUrl ArrayToString customScript []
                 = (Normal tt, [AppendChild element]))
            selected elements.
Proof.
  revert elements w.
  induction selected as [|customScript selected IH]; intros elements w; simpl.
  - split.
    + intros [= Hw]. rewrite <- (app_nil_r w) in Hw at 1.
      apply app_inv_head in Hw. destruct elements; [constructor | done].
    + intros ->%Forall2_nil_inv_l. simpl. by rewrite app_nil_r.
  - unfold mbind, M_bind.
    destruct (addScriptElement_outcome baseUrl ArrayToString customScript)
      as [[element Hadded]|[e Hthrown]].
    + rewrite Hadded. split.
      * intros Hrun.
        destruct (forEach_addScriptElement selected (w ++ [AppendChild element]))
          as [rest Hrest].
        rewrite Hrun in Hrest. simpl in Hrest.
        rewrite <- app_assoc in Hrest. apply app_inv_head in Hrest.
        destruct elements as [|element' elements]; [done|].
        injection Hrest as <- _.
        constructor; [by rewrite Hadded|].
        apply (IH elements (w ++ [AppendChild element'])).
        by rewrite Hrun, <- app_assoc.
      * intros Hall. inversion Hall as [|? element' ? elements' Hfirst Hrest]; subst.
        rewrite Hadded in Hfirst. injection Hfirst as <-.
        apply (IH elements' (w ++ [AppendChild element])) in Hrest.
        by rewrite Hrest, <- app_assoc.
    + rewrite Hthrown. split; [done|].
      intros Hall. inversion Hall as [|? element' ? elements' Hfirst Hrest]; subst.
      by rewrite Hthrown in Hfirst.
Qed.

(** X9: a dispatch on page load returns normally exactly when every entry
    that passes [shouldRunOnPageLoad] can be added on its own; it has then
    appended one script element for each of them, in the order of the
    manifest, each the element that the entry alone gives. *)
Theorem page_load_adds_in_manifest_order fetch items selected elements w :
  served baseUrl fetch (JArr items) →
  Array.filter shouldRunOnPageLoad items = Normal selected →
  runCustomPageLoadScripts baseUrl ArrayToString fetch w
    = (Normal tt, w ++ (AppendChild <$> elements))
  ↔ Forall2 (λ customScript element,
               addScriptElement baseUrl ArrayToString customScript []
                 = (Normal tt, [AppendChild element]))
            selected elements.
Proof.
  intros Hserved Hselected. unfold runCustomPageLoadScripts.
  rewrite (runCustomScripts_served _ _ _ _ _ _ Hserved), Hselected.
  apply forEach_addScriptElement_returns.
Qed.

End Dispatched.

Lemma forEach_frame {R} (callback : JSValue → M R) :
  (∀ item w, callback item w = ((callback item []).1, w ++ (callback item []).2)) →
  ∀ items w,
    Array.forEach callback items w =
      ((Array.forEach callback items []).1,
       w ++ (Array.forEach callback items []).2).
Proof.
  intros Hframe items. induction items as [|item items IH]; intros w; simpl.
  - by rewrite app_nil_r.
  - unfold mbind, M_bind. rewrite (Hframe item w).
    destruct (callback item []) as [[r|e] added]; simpl; [|done].
    rewrite (IH (w ++ added)), (IH added). simpl. by rewrite app_assoc.
Qed.

Section Routing.

Context (baseUrl : string) (ArrayToString : list JSValue → string).
Context (fetch : string → Completion Response).

Lemma importScript_frame customScript w :
  importScript baseUrl ArrayToString customScript w =
    ((importScript baseUrl ArrayToString customScript []).1,
     w ++ (importScript baseUrl ArrayToString customScript []).2).
Proof.
  destruct (importScript_call baseUrl ArrayToString customScript w)
    as (promise & Hpromise & ->).
  destruct (importScript_call baseUrl ArrayToString customScript [])
    as (promise' & _ & Hrun).
  rewrite Hrun in Hpromise. injection Hpromise as ->.
  by rewrite Hrun.
Qed.

(** What a dispatch does to a host is what it does to an empty one, after
    what was there. *)
Lemma dispatch_frame w :
  runCustomPageLoadScripts baseUrl ArrayToString fetch w =
    ((runCustomPageLoadScripts baseUrl ArrayToString fetch []).1,
     w ++ (runCustomPageLoadScripts baseUrl ArrayToString fetch []).2) ∧
  runCustomNavigateScripts baseUrl ArrayToString fetch w =
    ((runCustomNavigateScripts baseUrl ArrayToString fetch []).1,
     w ++ (runCustomNavigateScripts baseUrl ArrayToString fetch []).2).
Proof.
  unfold runCustomPageLoadScripts, runCustomNavigateScripts.
  rewrite !runCustomScripts_cases.
  destruct (fetch (manifestUrl baseUrl)) as [[[] [body|e]]|e]; simpl;
    rewrite ?app_nil_r; try done.
  destruct body as [| | | | |items|]; simpl; rewrite ?app_nil_r; try done.
  split.
  - destruct (Array.filter shouldRunOnPageLoad items); simpl;
      [|by rewrite app_nil_r].
    apply forEach_frame, addScriptElement_frame.
  - destruct (Array.filter shouldRunOnNavigate items); simpl;
      [|by rewrite app_nil_r].
    apply forEach_frame, importScript_frame.
Qed.

(** X14: when the dispatch on page load returns normally, the first
    routing event adds the page-load scripts and every routing event after
    it runs the navigation scripts: after one event and [count] more the
    host holds what the page-load dispatch adds, once, followed by what the
    navigation dispatch does, [count] times over; the rest of the component
    is as it was. *)
Theorem page_load_once_then_navigation (count : nat) (this : App) (w : World) :
  initialRoutingEventHasOccurred this = false →
  (runCustomPageLoadScripts baseUrl ArrayToString fetch []).1 = Normal tt →
  routingEvents baseUrl ArrayToString fetch (S count) this w =
    ({| initialRoutingEventHasOccurred := true;
        fromKeyboard := fromKeyboard this;
        listeners := listeners this;
        rootStyle := rootStyle this |},
     w ++ (runCustomPageLoadScripts baseUrl ArrayToString fetch []).2
       ++ mjoin (replicate count
                   (runCustomNavigateScripts baseUrl ArrayToString fetch []).2)).
Proof.
  intros Hfirst Hloaded. simpl. unfold watchRoute at 1. rewrite Hfirst.
  rewrite (proj1 (dispatch_frame w)), Hloaded.
  set (routed := {| initialRoutingEventHasOccurred := true |}).
  rewrite (app_assoc w).
  generalize (w ++ (runCustomPageLoadScripts baseUrl ArrayToString fetch []).2).
  induction count as [|count IH]; intros w'; simpl.
  - by rewrite app_nil_r.
  - unfold watchRoute at 1. simpl.
    rewrite (proj2 (dispatch_frame w')).
    destruct (runCustomNavigateScripts baseUrl ArrayToString fetch [])
      as [outcome imported] eqn:Hnavigate.
    simpl. rewrite IH. by rewrite app_assoc.
Qed.

Lemma importsStarted_app (w w' : World) :
  importsStarted (w ++ w') = importsStarted w ++ importsStarted w'.
Proof. unfold importsStarted. apply omap_app. Qed.

Lemma importsStarted_elements (elements : list Element) :
  importsStarted (AppendChild <$> elements) = [].
Proof. by induction elements. Qed.

(** X15: when the dispatch on page load is rejected, the routing event is
    rejected with the same error and [initialRoutingEventHasOccurred] stays
    false: every routing event dispatches for page load again, adding once
    more the script elements that were added before the error, and the
    navigation scripts are never imported. *)
Theorem failed_page_load_is_repeated (count : nat) (this : App) (w : World) e :
  initialRoutingEventHasOccurred this = false →
  (runCustomPageLoadScripts baseUrl ArrayToString fetch []).1 = Throw e →
  (watchRoute baseUrl ArrayToString fetch this w).1.1 = Throw e ∧
  routingEvents baseUrl ArrayToString fetch count this w =
    (this,
     w ++ mjoin (replicate count
                   (runCustomPageLoadScripts baseUrl ArrayToString fetch []).2)) ∧
  importsStarted (routingEvents baseUrl ArrayToString fetch count this w).2
    = importsStarted w.
Proof.
  intros Hfirst Hrejected.
  assert (∀ w', watchRoute baseUrl ArrayToString fetch this w' =
                (Throw e, this,
                 w' ++ (runCustomPageLoadScripts baseUrl ArrayToString fetch []).2))
    as Hevent.
  { intros w'. unfold watchRoute. rewrite Hfirst.
    by rewrite (proj1 (dispatch_frame w')), Hrejected. }
  assert (∀ w', routingEvents baseUrl ArrayToString fetch count this w' =
    (this,
     w' ++ mjoin (replicate count
                    (runCustomPageLoadScripts baseUrl ArrayToString fetch []).2)))
    as Hevents.
  { induction count as [|count IH]; intros w'; simpl.
    - by rewrite app_nil_r.
    - by rewrite Hevent, IH, app_assoc. }
  split; [by rewrite Hevent|]. split; [done|].
  rewrite Hevents. simpl. rewrite importsStarted_app.
  destruct (dispatch_appends baseUrl ArrayToString fetch []) as [[elements Hadded] _].
  simpl in Hadded. rewrite Hadded.
  assert (importsStarted (mjoin (replicate count (AppendChild <$> elements))) = [])
    as ->; [|by rewrite app_nil_r].
  clear Hevents. induction count as [|count IH]; simpl; [done|].
  by rewrite importsStarted_app, importsStarted_elements, IH.
Qed.

End Routing.

(** * Properties of the root component *)

Lemma dispatchEvent_keyboard type this :
  keyboardListeners this →
  keyboardListeners (dispatchEvent type this) ∧
  fromKeyboard (dispatchEvent type this) = lastWasKey [type] (fromKeyboard this).
Proof.
  destruct this as [routed [] registered style]; unfold keyboardListeners;
    simpl; intros ->; unfold dispatchEvent, lastWasKey; simpl.
  - destruct (decide (type = "mousedown")) as [->|Hother].
    + by vm_compute.
    + rewrite decide_False by (intros [? _]; congruence).
      split; [done|]. by repeat case_decide.
  - destruct (decide (type = "keydown")) as [->|Hother].
    + by vm_compute.
    + rewrite decide_False by (intros [? _]; congruence).
      split; [done|]. by repeat case_decide.
Qed.

(** X10: from [created] on, whatever events reach [window], the component
    has exactly one of its two listeners registered: the one for
    [mousedown] when the last key or mouse press was a key press, when
    [fromKeyboard] is true, and the one for [keydown] otherwise. *)
Theorem keyboard_listeners_alternate (types : list string) (this : App) :
  keyboardListeners this →
  keyboardListeners (dispatchEvents types this) ∧
  fromKeyboard (dispatchEvents types this) = lastWasKey types (fromKeyboard this).
Proof.
  revert this. induction types as [|type types IH]; intros this Hthis; simpl.
  - done.
  - destruct (dispatchEvent_keyboard type this Hthis) as [Hnext Hflag].
    destruct (IH _ Hnext) as [Hlast ->]. split; [done|].
    by rewrite Hflag.
Qed.

Lemma foldl_delete_lookup (removed : list (string * JSValue))
    (root : gmap string JSValue) k :
  foldl (λ style entry, delete entry.1 style) root removed !! k =
    if decide (k ∈ removed.*1) then None else root !! k.
Proof.
  revert root. induction removed as [|[k' v] removed IH]; intros root; simpl.
  - done.
  - rewrite IH. destruct (decide (k' = k)) as [->|Hk].
    + rewrite lookup_delete_eq.
      destruct (decide (k ∈ k :: _)) as [_|Hout]; [by case_decide|].
      destruct Hout. apply list_elem_of_here.
    + rewrite lookup_delete_ne by done.
      destruct (decide (k ∈ removed.*1)) as [Hin|Hout],
        (decide (k ∈ k' :: _)) as [Hin'|Hout']; try done.
      * destruct Hout'. by apply list_elem_of_further.
      * apply elem_of_cons in Hin' as [?|?]; [congruence | by destruct Hout].
Qed.

Lemma foldl_insert_lookup (set : list (string * JSValue))
    (root : gmap string JSValue) k :
  NoDup set.*1 →
  foldl (λ style entry, <[entry.1 := entry.2]> style) root set !! k =
    match list_to_map (M := gmap string JSValue) set !! k with
    | Some v => Some v
    | None => root !! k
    end.
Proof.
  revert root. induction set as [|[k' v] set IH]; intros root Hnodup; simpl.
  - by rewrite lookup_empty.
  - apply NoDup_cons in Hnodup as [Hfresh Hnodup]. rewrite IH by done.
    destruct (decide (k' = k)) as [->|Hk].
    + rewrite !lookup_insert_eq.
      by rewrite (not_elem_of_list_to_map_1 _ _ Hfresh).
    + by rewrite !lookup_insert_ne.
Qed.

Lemma detachStylesFromRoot_lookup props root k :
  detachStylesFromRoot props root !! k =
    match props !! k with
    | Some _ => None
    | None => root !! k
    end.
Proof.
  unfold detachStylesFromRoot, entries. rewrite foldl_delete_lookup.
  destruct (props !! k) as [v|] eqn:Hk.
  - rewrite decide_True; [done|].
    apply list_elem_of_fmap. exists (k, v). by rewrite elem_of_map_to_list.
  - rewrite decide_False; [done|].
    intros ([k' v] & -> & Hin)%list_elem_of_fmap.
    apply elem_of_map_to_list in Hin. simpl in *. congruence.
Qed.

Lemma attachStylesToRoot_lookup props root k :
  attachStylesToRoot props root !! k =
    match props !! k with
    | Some v => if ToBoolean v then Some v else root !! k
    | None => root !! k
    end.
Proof.
  unfold attachStylesToRoot, entries.
  set (truthy := filter (λ entry, ToBoolean entry.2 = true) (map_to_list props)).
  assert (NoDup truthy.*1) as Hnodup.
  { eapply sublist_NoDup; [apply (NoDup_fst_map_to_list props)|].
    apply fmap_sublist, sublist_filter. }
  rewrite foldl_insert_lookup by done.
  destruct (list_to_map truthy !! k) as [v|] eqn:Hset.
  - apply elem_of_list_to_map in Hset; [|done].
    apply list_elem_of_filter in Hset as [Htruthy Hin].
    apply elem_of_map_to_list in Hin. simpl in *. by rewrite Hin, Htruthy.
  - apply not_elem_of_list_to_map in Hset.
    destruct (props !! k) as [v|] eqn:Hk; [|done].
    destruct (ToBoolean v) eqn:Htruthy; [|done].
    destruct Hset. apply list_elem_of_fmap. exists (k, v). split; [done|].
    apply list_elem_of_filter. by rewrite elem_of_map_to_list.
Qed.

(** X11: [attachStylesToRoot] sets on the root exactly the custom
    properties whose value is truthy, over what the root had under their
    names, and leaves every other property of the root as it was;
    [detachStylesFromRoot] after it removes them all and more, every
    property named, so that what the root had under these names before is
    not brought back. *)
Theorem styles_attached_and_detached (props root : gmap string JSValue) :
  (∀ k, attachStylesToRoot props root !! k =
          match props !! k with
          | Some v => if ToBoolean v then Some v else root !! k
          | None => root !! k
          end) ∧
  (∀ k, detachStylesFromRoot props (attachStylesToRoot props root) !! k =
          match props !! k with
          | Some _ => None
          | None => root !! k
          end) ∧
  detachStylesFromRoot props (attachStylesToRoot props root)
    = detachStylesFromRoot props root.
Proof.
  split; [apply attachStylesToRoot_lookup|].
  assert (∀ k, detachStylesFromRoot props (attachStylesToRoot props root) !! k =
               match props !! k with
               | Some _ => None
               | None => root !! k
               end) as Hlookup.
  { intros k. rewrite detachStylesFromRoot_lookup, attachStylesToRoot_lookup.
    by destruct (props !! k). }
  split; [done|].
  apply map_eq. intros k. by rewrite Hlookup, detachStylesFromRoot_lookup.
Qed.

(** X12: when [CSSCustomProperties] changes, the handler of its watcher
    leaves on the root each property of the new value whose value is
    truthy, with that value, and none whose value is not; a property that
    the new value does not name keeps what it had, also one that an earlier
    value had set.  Running the handler again changes nothing. *)
Theorem watchCSSCustomProperties_styles (props : gmap string JSValue) (this : App) :
  (∀ k, rootStyle (watchCSSCustomProperties props this) !! k =
          match props !! k with
          | Some v => if ToBoolean v then Some v else None
          | None => rootStyle this !! k
          end) ∧
  watchCSSCustomProperties props (watchCSSCustomProperties props this)
    = watchCSSCustomProperties props this.
Proof.
  assert (∀ root k,
            attachStylesToRoot props (detachStylesFromRoot props root) !! k =
              match props !! k with
              | Some v => if ToBoolean v then Some v else None
              | None => root !! k
              end) as Hlookup.
  { intros root k. rewrite attachStylesToRoot_lookup, detachStylesFromRoot_lookup.
    by destruct (props !! k). }
  split; [intros k; apply Hlookup|].
  unfold watchCSSCustomProperties. simpl. f_equal.
  apply map_eq. intros k. rewrite !Hlookup.
  by destruct (props !! k) as [v|]; [destruct (ToBoolean v)|].
Qed.

(** X13: [beforeDestroy], whatever key and mouse events came before it,
    leaves the component no listener on [window] for [keydown] or
    [mousedown], and leaves none of the custom properties on the root. *)
Theorem beforeDestroy_cleans_up (props : gmap string JSValue)
    (types : list string) (this : App) :
  keyboardListeners this →
  listeners (beforeDestroy props (dispatchEvents types this)) = [] ∧
  ∀ k, is_Some (props !! k) →
       rootStyle (beforeDestroy props (dispatchEvents types this)) !! k = None.
Proof.
  intros Hthis.
  assert (keyboardListeners (dispatchEvents types this)) as Hlast.
  { clear props. revert this Hthis.
    induction types as [|type types IH]; intros this Hthis; simpl; [done|].
    apply IH. by apply dispatchEvent_keyboard. }
  split.
  - unfold keyboardListeners in Hlast. unfold beforeDestroy. simpl.
    rewrite Hlast.
    destruct (fromKeyboard (dispatchEvents types this)); reflexivity.
  - intros k [v Hk]. unfold beforeDestroy. simpl.
    by rewrite detachStylesFromRoot_lookup, Hk.
Qed.

(** ** The further properties at the samples *)

(** X1 on a manifest that is not JSON. *)
Lemma failed_manifest_rejects_sample :
  runCustomPageLoadScripts "/docs" Sample.arrayToString AppSample.unparsable []
    = (Throw SyntaxError, []) ∧
  runCustomNavigateScripts "/docs" Sample.arrayToString AppSample.unparsable []
    = (Throw SyntaxError, []).
Proof.
  apply (failed_manifest_rejects "/docs" Sample.arrayToString
           AppSample.unparsable SyntaxError []).
  right. reflexivity.
Defined.

(** X3 on the external script of the samples. *)
Lemma script_element_properties_sample :
  ∃ element,
    [AppendChild Sample.externalElement] = [] ++ [AppendChild element] ∧
    dom element ⊆ {[ "type"; "src"; "async"; "defer"; "integrity"; "crossOrigin" ]} ∧
    element !! "type" = Sample.externalProps !! "type" ∧
    element !! "defer" = Sample.externalProps !! "defer" ∧
    element !! "integrity" = Sample.externalProps !! "integrity" ∧
    (∀ url, Sample.externalProps !! "url" = Some url → element !! "src" = Some url) ∧
    (∀ name, Sample.externalProps !! "url" = None →
       Sample.externalProps !! "name" = Some name →
       ∃ src, urlGivenScriptName "/docs" Sample.arrayToString name = Normal src ∧
              element !! "src" = Some (JStr src)).
Proof.
  apply (script_element_properties "/docs" Sample.arrayToString
           Sample.externalProps [] [AppendChild Sample.externalElement]).
  vm_compute. reflexivity.
Defined.

(** X4 on an entry named by the number 5. *)
Lemma name_without_slice_is_a_TypeError_sample :
  addScriptElement "/docs" Sample.arrayToString (JObj AppSample.numbered) []
    = (Throw TypeError, []) ∧
  importScript "/docs" Sample.arrayToString (JObj AppSample.numbered) []
    = (Normal (Rejected TypeError), []).
Proof.
  apply (name_without_slice_is_a_TypeError "/docs" Sample.arrayToString
           AppSample.numbered (JNum 5) []);
    [reflexivity | reflexivity | discriminate | discriminate].
Defined.

(** X7 on the name "js". *)
Lemma local_script_url_ends_in_js_sample :
  (∃ stem, "/docs/custom-scripts/js.js" = "/docs" +:+ "/custom-scripts/" +:+ stem +:+ ".js") ∧
  (∀ short, JStr "js" = JStr short → String.length short < 3 →
     "/docs/custom-scripts/js.js" = "/docs" +:+ "/custom-scripts/" +:+ short +:+ ".js").
Proof.
  apply (local_script_url_ends_in_js "/docs" Sample.arrayToString (JStr "js")
           "/docs/custom-scripts/js.js").
  reflexivity.
Defined.

(** X9 on the manifest of [a], [b] and [c]. *)
Lemma page_load_adds_in_manifest_order_sample :
  runCustomPageLoadScripts "/docs" Sample.arrayToString
      (Sample.serving (JArr [Sample.a; Sample.b; Sample.c])) []
    = (Normal tt, [] ++ (AppendChild <$> [Sample.aElement; Sample.cElement]))
  ↔ Forall2 (λ customScript element,
               addScriptElement "/docs" Sample.arrayToString customScript []
                 = (Normal tt, [AppendChild element]))
            [Sample.a; Sample.c] [Sample.aElement; Sample.cElement].
Proof.
  apply (page_load_adds_in_manifest_order "/docs" Sample.arrayToString
           (Sample.serving (JArr [Sample.a; Sample.b; Sample.c]))
           [Sample.a; Sample.b; Sample.c] [Sample.a; Sample.c]
           [Sample.aElement; Sample.cElement] []);
    vm_compute; reflexivity.
Defined.

(** X14 on the manifest of [a], [b] and [c], at three routing events. *)
Lemma page_load_once_then_navigation_sample :
  routingEvents "/docs" Sample.arrayToString
      (Sample.serving (JArr [Sample.a; Sample.b; Sample.c])) 3 AppSample.created []
    = ({| initialRoutingEventHasOccurred := true;
          fromKeyboard := fromKeyboard AppSample.created;
          listeners := listeners AppSample.created;
          rootStyle := rootStyle AppSample.created |},
       [] ++ (runCustomPageLoadScripts "/docs" Sample.arrayToString
                (Sample.serving (JArr [Sample.a; Sample.b; Sample.c])) []).2
          ++ mjoin (replicate 2
                      (runCustomNavigateScripts "/docs" Sample.arrayToString
                         (Sample.serving (JArr [Sample.a; Sample.b; Sample.c])) []).2)).
Proof.
  apply (page_load_once_then_navigation "/docs" Sample.arrayToString
           (Sample.serving (JArr [Sample.a; Sample.b; Sample.c])) 2
           AppSample.created []);
    vm_compute; reflexivity.
Defined.

(** X15 on a manifest whose second entry has no source, at three routing
    events. *)
Lemma failed_page_load_is_repeated_sample :
  (watchRoute "/docs" Sample.arrayToString
     (Sample.serving (JArr [Sample.a; Sample.sourceless; Sample.b]))
     AppSample.created []).1.1 = Throw noSource ∧
  routingEvents "/docs" Sample.arrayToString
      (Sample.serving (JArr [Sample.a; Sample.sourceless; Sample.b])) 3
      AppSample.created []
    = (AppSample.created,
       [] ++ mjoin (replicate 3
                      (runCustomPageLoadScripts "/docs" Sample.arrayToString
                         (Sample.serving
                            (JArr [Sample.a; Sample.sourceless; Sample.b])) []).2)) ∧
  importsStarted
    (routingEvents "/docs" Sample.arrayToString
       (Sample.serving (JArr [Sample.a; Sample.sourceless; Sample.b])) 3
       AppSample.created []).2
    = importsStarted [].
Proof.
  apply (failed_page_load_is_repeated "/docs" Sample.arrayToString
           (Sample.serving (JArr [Sample.a; Sample.sourceless; Sample.b])) 3
           AppSample.created [] noSource);
    vm_compute; reflexivity.
Defined.

(** The elements that the three routing events above leave in the
    document. *)
Example failed_page_load_adds_again :
  (routingEvents "/docs" Sample.arrayToString
     (Sample.serving (JArr [Sample.a; Sample.sourceless; Sample.b])) 3
     AppSample.created []).2
    = [AppendChild Sample.aElement; AppendChild Sample.aElement;
       AppendChild Sample.aElement].
Proof. vm_compute. reflexivity. Qed.

(** X10 on a key press, a click elsewhere and a mouse press. *)
Lemma keyboard_listeners_alternate_sample :
  keyboardListeners
    (dispatchEvents ["keydown"; "click"; "mousedown"; "keydown"] AppSample.created) ∧
  fromKeyboard
    (dispatchEvents ["keydown"; "click"; "mousedown"; "keydown"] AppSample.created)
    = lastWasKey ["keydown"; "click"; "mousedown"; "keydown"]
        (fromKeyboard AppSample.created).
Proof.
  apply (keyboard_listeners_alternate
           ["keydown"; "click"; "mousedown"; "keydown"] AppSample.created).
  reflexivity.
Defined.

(** X13 on a component destroyed after a key press. *)
Lemma beforeDestroy_cleans_up_sample :
  listeners (beforeDestroy AppSample.theme
               (dispatchEvents ["keydown"] AppSample.created)) = [] ∧
  ∀ k, is_Some (AppSample.theme !! k) →
       rootStyle (beforeDestroy AppSample.theme
                    (dispatchEvents ["keydown"] AppSample.created)) !! k = None.
Proof.
  apply (beforeDestroy_cleans_up AppSample.theme ["keydown"] AppSample.created).
  reflexivity.
Defined.
